(** * TaskFlow job manager: a shallow embedding of [app.js]

    The program is a single-page job tracker.  Its state lives in three
    places: the [AppState] object, the IndexedDB object store [jobs]
    (key path [id]) and the document.  Every function of [app.js] that the
    properties below talk about is embedded here as a computation over a
    [World] that holds those three, in a small state-and-exception monad.

    Strings are sequences of code units below 256; on them
    [toLowerCase], [includes], [trim] and [split] are written out.  The
    host's [Date] parser is an interface ([Host]); [Array.prototype.sort]
    is embedded as the stable insertion sort, which is the list every
    conforming engine returns when the comparator is consistent, that
    is, when every due date is a valid date; nothing is read off its order
    otherwise.  A listener throws a [TypeError] on a call on a value that
    is not a function, and a [RequestError] when the store rejects a
    request. *)

From Stdlib Require Import ZArith NArith Ascii String List Bool Lia.
From stdpp Require Import base list strings sorting.

Local Open Scope string_scope.
Local Open Scope list_scope.

(** ** The string and array built-ins the program calls *)

Module JS.

(** [String.prototype.toLowerCase] on code units below 256: the letters
    A-Z, and the Latin-1 capitals U+00C0..U+00DE without the
    multiplication sign U+00D7, move up by 32.  On these strings the
    built-in works unit by unit, as here; on strings with other units it
    does not (a capital sigma becomes one of two letters by its place)
    and is not modelled. *)
Definition lower_unit (c : ascii) : ascii :=
  let n := N_of_ascii c in
  if ((65 <=? n) && (n <=? 90) ||
      (192 <=? n) && (n <=? 222) && negb (n =? 215))%N
  then ascii_of_N (n + 32) else c.

Fixpoint toLowerCase (s : string) : string :=
  match s with
  | EmptyString => EmptyString
  | String c s' => String (lower_unit c) (toLowerCase s')
  end.

(** [s.startsWith(q)] and [s.includes(q)]. *)
Fixpoint startsWith (s q : string) {struct q} : bool :=
  match q, s with
  | EmptyString, _ => true
  | String _ _, EmptyString => false
  | String c q', String d s' => Ascii.eqb c d && startsWith s' q'
  end.

Fixpoint includes (s q : string) : bool :=
  startsWith s q ||
  match s with
  | EmptyString => false
  | String _ s' => includes s' q
  end.

(** A string is truthy when it is not empty. *)
Definition truthy (s : string) : bool :=
  match s with EmptyString => false | String _ _ => true end.

(** White space of [String.prototype.trim] below 256: TAB, LF, VT, FF,
    CR, SP and NBSP. *)
Definition is_white (c : ascii) : bool :=
  let n := N_of_ascii c in
  ((9 <=? n) && (n <=? 13) || (n =? 32) || (n =? 160))%N.

Fixpoint trimStart (s : string) : string :=
  match s with
  | EmptyString => EmptyString
  | String c s' => if is_white c then trimStart s' else s
  end.

Fixpoint trimEnd (s : string) : string :=
  match s with
  | EmptyString => EmptyString
  | String c s' =>
      match trimEnd s' with
      | EmptyString => if is_white c then EmptyString else String c EmptyString
      | r => String c r
      end
  end.

Definition trim (s : string) : string := trimEnd (trimStart s).

(** [s.split(',')]: the pieces between commas; the empty string splits
    into one empty piece. *)
Fixpoint split_comma (s : string) : list string :=
  match s with
  | EmptyString => [EmptyString]
  | String c s' =>
      if Ascii.eqb c ","%char then EmptyString :: split_comma s'
      else match split_comma s' with
           | h :: t => String c h :: t
           | [] => [String c EmptyString]
           end
  end.

(** [a.findIndex(p)]: the first index whose element satisfies [p], or -1. *)
Fixpoint findIndex {A} (p : A -> bool) (l : list A) : Z :=
  match l with
  | [] => (-1)%Z
  | x :: r => if p x then 0%Z
              else let i := findIndex p r in
                   if (i <? 0)%Z then (-1)%Z else (i + 1)%Z
  end.

(** [a.sort(cmp)].  The comparator returns a Number; [None] stands for
    NaN, which the sort treats as +0.  An element moves in front of the
    (already sorted) rest as far as the first element it does not come
    after, so equal elements keep their order.  With a consistent
    comparator this is the list of every engine (the sort is stable);
    with a comparator that returns NaN the order is the engine's own, and
    only that the result is a rearrangement is common to all. *)
Definition comes_after (v : option Z) : bool :=
  match v with
  | Some d => (0 <? d)%Z
  | None => false
  end.

Fixpoint sort_insert {A} (cmp : A -> A -> option Z) (x : A) (l : list A)
  : list A :=
  match l with
  | [] => [x]
  | y :: r => if comes_after (cmp x y) then y :: sort_insert cmp x r
              else x :: y :: r
  end.

Fixpoint sort {A} (cmp : A -> A -> option Z) (l : list A) : list A :=
  match l with
  | [] => []
  | x :: r => sort_insert cmp x (sort cmp r)
  end.

(** Subtraction of two time values; NaN when either is. *)
Definition date_minus (a b : option Z) : option Z :=
  match a, b with
  | Some x, Some y => Some (x - y)%Z
  | _, _ => None
  end.

(** The names an object literal inherits from [Object.prototype]; each
    holds a function or an object, so a lookup under one of them is
    truthy. *)
Definition object_prototype_names : list string :=
  [ "constructor"; "__defineGetter__"; "__defineSetter__";
    "hasOwnProperty"; "__lookupGetter__"; "__lookupSetter__";
    "isPrototypeOf"; "propertyIsEnumerable"; "toString"; "valueOf";
    "__proto__"; "toLocaleString" ].

Definition inherited (name : string) : bool :=
  existsb (String.eqb name) object_prototype_names.

End JS.

(** The host's date parser: [new Date(s)] has the time value
    [Date_parse s], in milliseconds since the epoch, or [None] when the
    date is invalid (time value NaN). *)
Class Host := { Date_parse : string -> option Z }.

(** ** Data model *)

(** A job record, with the fields [handleSaveJob] gives it. *)
Module Job.
Record t := mk {
  id : string;
  title : string;
  desc : string;
  status : string;
  priority : string;
  dueDate : string;
  tags : list string;
  updatedAt : string
}.

(** [job.status = s]. *)
Definition set_status (s : string) (j : t) : t :=
  mk (id j) (title j) (desc j) s (priority j) (dueDate j) (tags j)
     (updatedAt j).
End Job.

(** The global [AppState] object. *)
Module AppState.
Record t := mk {
  jobs : list Job.t;
  view : string;
  filter : string;
  darkMode : bool
}.

Definition set_jobs (l : list Job.t) (s : t) : t :=
  mk l (view s) (filter s) (darkMode s).
Definition set_filter (q : string) (s : t) : t :=
  mk (jobs s) (view s) q (darkMode s).
End AppState.

(** The object store [jobs] of the database.  Its key path is [id], so
    it holds at most one record per id, and [getAll] lists the records in
    ascending key order. *)
Module IDB.
Definition Store := list Job.t.

Definition getAll (s : Store) : list Job.t := s.

(** [store.put(job)]: the record takes the place of the one with its
    key, or its place in the key order. *)
Fixpoint put (job : Job.t) (s : Store) : Store :=
  match s with
  | [] => [job]
  | r :: s' =>
      match String.compare (Job.id job) (Job.id r) with
      | Eq => job :: s'
      | Lt => job :: r :: s'
      | Gt => r :: put job s'
      end
  end.

(** [store.delete(id)]. *)
Definition delete (id : string) (s : Store) : Store :=
  List.filter (fun r => negb (String.eqb (Job.id r) id)) s.

(** The requests the program issues to the store, in order. *)
Inductive Request :=
| GetAll
| Put (job : Job.t)
| Delete (id : string).
End IDB.

(** The kanban columns. *)
Inductive Column := todo | in_progress | review | done.

(** One value per column. *)
Record PerColumn (A : Type) := per_column {
  at_todo : A;
  at_in_progress : A;
  at_review : A;
  at_done : A
}.
Arguments per_column {A}.
Arguments at_todo {A}.
Arguments at_in_progress {A}.
Arguments at_review {A}.
Arguments at_done {A}.

Definition at_column {A} (c : Column) (p : PerColumn A) : A :=
  match c with
  | todo => at_todo p
  | in_progress => at_in_progress p
  | review => at_review p
  | done => at_done p
  end.

Definition on_column {A} (c : Column) (f : A -> A) (p : PerColumn A)
  : PerColumn A :=
  match c with
  | todo => per_column (f (at_todo p)) (at_in_progress p) (at_review p) (at_done p)
  | in_progress => per_column (at_todo p) (f (at_in_progress p)) (at_review p) (at_done p)
  | review => per_column (at_todo p) (at_in_progress p) (f (at_review p)) (at_done p)
  | done => per_column (at_todo p) (at_in_progress p) (at_review p) (f (at_done p))
  end.

Definition every_column {A} (a : A) : PerColumn A := per_column a a a a.

(** The part of the document the program writes.  A card, a table row
    and a dashboard item are each built from one job, and are kept here as
    that job. *)
Module Dom.
Inductive RecentList :=
| EmptyState
| Items (items : list Job.t).

Record Stats := stats {
  stat_total : nat;
  stat_active : nat;
  stat_completed : nat;
  stat_pending : nat
}.

(** The fields of [#job-form]. *)
Record Form := form {
  job_id : string;
  job_title : string;
  job_desc : string;
  job_status : string;
  job_priority : string;
  job_date : string;
  job_tags : string
}.

Record t := mk {
  recent_list : RecentList;
  columns : PerColumn (list Job.t);
  counts : PerColumn nat;
  job_table_body : list Job.t;
  summary : Stats;
  job_form : Form;
  modal_open : bool
}.

Definition set_recent_list (x : RecentList) (d : t) : t :=
  mk x (columns d) (counts d) (job_table_body d) (summary d) (job_form d)
     (modal_open d).
Definition set_columns (x : PerColumn (list Job.t)) (d : t) : t :=
  mk (recent_list d) x (counts d) (job_table_body d) (summary d) (job_form d)
     (modal_open d).
Definition set_counts (x : PerColumn nat) (d : t) : t :=
  mk (recent_list d) (columns d) x (job_table_body d) (summary d) (job_form d)
     (modal_open d).
Definition set_job_table_body (x : list Job.t) (d : t) : t :=
  mk (recent_list d) (columns d) (counts d) x (summary d) (job_form d)
     (modal_open d).
Definition set_summary (x : Stats) (d : t) : t :=
  mk (recent_list d) (columns d) (counts d) (job_table_body d) x (job_form d)
     (modal_open d).
Definition set_job_form (x : Form) (d : t) : t :=
  mk (recent_list d) (columns d) (counts d) (job_table_body d) (summary d)
     x (modal_open d).
Definition set_modal_open (x : bool) (d : t) : t :=
  mk (recent_list d) (columns d) (counts d) (job_table_body d) (summary d)
     (job_form d) x.
End Dom.

(** ** The world and the monad of the program *)

Record World := world {
  appState : AppState.t;
  idb : IDB.Store;
  dom : Dom.t;
  requests : list IDB.Request
}.

Inductive Exn := TypeError | RequestError.

Inductive Outcome (A : Type) :=
| Returned (a : A)
| Thrown (e : Exn).
Arguments Returned {A}.
Arguments Thrown {A}.

(** A computation runs from a world to an outcome and the world it
    leaves; what it wrote before throwing stays written. *)
Definition M (A : Type) : Type := World -> Outcome A * World.

#[global] Instance M_ret : MRet M := fun A a w => (Returned a, w).

#[global] Instance M_bind : MBind M := fun A B k c w =>
  match c w with
  | (Returned a, w') => k a w'
  | (Thrown e, w') => (Thrown e, w')
  end.

Definition throw {A} (e : Exn) : M A := fun w => (Thrown e, w).

Definition getAppState : M AppState.t := fun w => (Returned (appState w), w).
Definition getDom : M Dom.t := fun w => (Returned (dom w), w).

Definition updAppState (f : AppState.t -> AppState.t) : M unit :=
  fun w => (Returned tt, world (f (appState w)) (idb w) (dom w) (requests w)).
Definition updDom (f : Dom.t -> Dom.t) : M unit :=
  fun w => (Returned tt, world (appState w) (idb w) (f (dom w)) (requests w)).

(** One request to the object store: it is logged, and [f] gives the
    store it leaves. *)
Definition request (r : IDB.Request) (f : IDB.Store -> IDB.Store) : M unit :=
  fun w => (Returned tt,
            world (appState w) (f (idb w)) (dom w) (requests w ++ [r])).

Definition getStore : M IDB.Store := fun w => (Returned (idb w), w).

(** [a.forEach(f)]. *)
Fixpoint forEach {A} (f : A -> M unit) (l : list A) : M unit :=
  match l with
  | [] => mret tt
  | x :: r => f x ;; forEach f r
  end.

(** The world a computation leaves, and its outcome. *)
Definition after {A} (c : M A) (w : World) : World := snd (c w).
Definition outcome {A} (c : M A) (w : World) : Outcome A := fst (c w).

(** ** The IndexedDB wrapper [db] *)

Module db.
Definition getAllJobs : M (list Job.t) :=
  request IDB.GetAll (fun s => s) ;;
  s ← getStore; mret (IDB.getAll s).

Definition addJob (job : Job.t) : M Job.t :=
  request (IDB.Put job) (IDB.put job) ;;
  mret job.

Definition deleteJob (id : string) : M unit :=
  request (IDB.Delete id) (IDB.delete id).
End db.

(** ** The application *)

Section Application.
Context {host : Host}.

(** The comparator of [loadJobs]:
    [new Date(a.dueDate) - new Date(b.dueDate)]. *)
Definition byDueDate (a b : Job.t) : option Z :=
  JS.date_minus (Date_parse (Job.dueDate a)) (Date_parse (Job.dueDate b)).

Definition loadJobs : M unit :=
  all ← db.getAllJobs;
  updAppState (AppState.set_jobs (JS.sort byDueDate all)).

(** The callback of [AppState.jobs.filter] in [renderCurrentView]. *)
Definition passes (query : string) (job : Job.t) : bool :=
  if negb (JS.truthy query) then true
  else JS.includes (JS.toLowerCase (Job.title job)) query ||
       existsb (fun t => JS.includes (JS.toLowerCase t) query) (Job.tags job).

Definition createJobCard (job : Job.t) : Job.t := job.

(** [columns[name]] in [renderKanban]: the column of the object literal,
    a member of [Object.prototype], or [undefined]. *)
Inductive Member :=
| Own (c : Column)
| Inherited
| Undefined.

Definition columns_at (name : string) : Member :=
  if String.eqb name "todo" then Own todo
  else if String.eqb name "in-progress" then Own in_progress
  else if String.eqb name "review" then Own review
  else if String.eqb name "done" then Own done
  else if JS.inherited name then Inherited
  else Undefined.

(** The body of [jobs.forEach] in [renderKanban]; [counts] is the local
    object of that name.  Under an inherited name the lookup is truthy
    and has no [appendChild]: the call throws. *)
Fixpoint fillColumns (jobs : list Job.t) (counts : PerColumn nat)
  : M (PerColumn nat) :=
  match jobs with
  | [] => mret counts
  | job :: rest =>
      match columns_at (Job.status job) with
      | Own c =>
          let card := createJobCard job in
          updDom (fun d => Dom.set_columns
                    (on_column c (fun cards => cards ++ [card]) (Dom.columns d)) d) ;;
          fillColumns rest (on_column c S counts)
      | Inherited => throw TypeError
      | Undefined => fillColumns rest counts
      end
  end.

Definition renderKanban (jobs : list Job.t) : M unit :=
  updDom (Dom.set_columns (every_column [])) ;;
  counts ← fillColumns jobs (every_column 0);
  updDom (Dom.set_counts counts).

Definition renderList (jobs : list Job.t) : M unit :=
  updDom (Dom.set_job_table_body []) ;;
  forEach (fun job => updDom (fun d =>
             Dom.set_job_table_body (Dom.job_table_body d ++ [job]) d)) jobs.

(** The items appended to [#recent-list]. *)
Definition appendItem (job : Job.t) (r : Dom.RecentList) : Dom.RecentList :=
  match r with
  | Dom.Items l => Dom.Items (l ++ [job])
  | Dom.EmptyState => Dom.Items [job]
  end.

Definition renderRecentActivity (jobs : list Job.t) : M unit :=
  updDom (Dom.set_recent_list (Dom.Items [])) ;;
  if Nat.eqb (length jobs) 0
  then updDom (Dom.set_recent_list Dom.EmptyState)
  else forEach (fun job => updDom (fun d =>
                  Dom.set_recent_list (appendItem job (Dom.recent_list d)) d))
               (take 5 jobs).

Definition count_where (p : Job.t -> bool) (l : list Job.t) : nat :=
  length (List.filter p l).

Definition updateStats : M unit :=
  st ← getAppState;
  let total := length (AppState.jobs st) in
  let active :=
    count_where (fun j => String.eqb (Job.status j) "in-progress")
                (AppState.jobs st) in
  let completed :=
    count_where (fun j => String.eqb (Job.status j) "done")
                (AppState.jobs st) in
  let pending :=
    count_where (fun j => String.eqb (Job.status j) "todo" ||
                          String.eqb (Job.status j) "review")
                (AppState.jobs st) in
  updDom (Dom.set_summary (Dom.stats total active completed pending)).

Definition filteredJobs (st : AppState.t) : list Job.t :=
  List.filter (passes (AppState.filter st)) (AppState.jobs st).

Definition renderCurrentView : M unit :=
  st ← getAppState;
  let filteredJobs := filteredJobs st in
  (if String.eqb (AppState.view st) "dashboard"
   then renderRecentActivity filteredJobs
   else if String.eqb (AppState.view st) "kanban"
   then renderKanban filteredJobs
   else if String.eqb (AppState.view st) "list"
   then renderList filteredJobs
   else mret tt) ;;
  updateStats.


(** The [input] listener [setupEventListeners] gives the search box. *)
Definition onSearchInput (value : string) : M unit :=
  updAppState (AppState.set_filter (JS.toLowerCase value)) ;;
  renderCurrentView.

(** The [click] listener [createJobCard] gives a card's delete button;
    [confirmed] is the answer to the confirmation dialog. *)
Definition onDeleteClick (job : Job.t) (confirmed : bool) : M unit :=
  if confirmed then
    db.deleteJob (Job.id job) ;;
    loadJobs ;;
    renderCurrentView
  else mret tt.

(** The [drop] listener [setupDragAndDrop] gives a kanban column;
    [jobId] is the data of the drag and [newStatus] the column's
    [data-status].  Under the guard
    [jobIndex > -1] the index is one of the array, so [jobs[jobIndex]] is
    a job; the branch [None] is never taken. *)
Definition onDrop (jobId newStatus : string) : M unit :=
  st ← getAppState;
  let jobIndex :=
    JS.findIndex (fun j => String.eqb (Job.id j) jobId) (AppState.jobs st) in
  match (if (-1 <? jobIndex)%Z
         then AppState.jobs st !! Z.to_nat jobIndex else None) with
  | Some job =>
      if negb (String.eqb (Job.status job) newStatus) then
        let job' := Job.set_status newStatus job in
        updAppState (AppState.set_jobs
                       (<[Z.to_nat jobIndex := job']> (AppState.jobs st))) ;;
        db.addJob job' ;;
        renderCurrentView
      else mret tt
  | None => mret tt
  end.

Definition closeModal : M unit := updDom (Dom.set_modal_open false).

(** [handleSaveJob]; [uuid] is what [crypto.randomUUID()] returns and
    [now] what [new Date().toISOString()] returns at the call. *)
Definition handleSaveJob (uuid now : string) : M unit :=
  d ← getDom;
  let f := Dom.job_form d in
  let id := if JS.truthy (Dom.job_id f) then Dom.job_id f else uuid in
  let title := Dom.job_title f in
  let desc := Dom.job_desc f in
  let status := Dom.job_status f in
  let priority := Dom.job_priority f in
  let dueDate := Dom.job_date f in
  let tagsInput := Dom.job_tags f in
  let tags :=
    List.filter JS.truthy (map JS.trim (JS.split_comma tagsInput)) in
  let job := Job.mk id title desc status priority dueDate tags now in
  db.addJob job ;;
  loadJobs ;;
  renderCurrentView ;;
  closeModal.

(** Modelled from the spec: the validation of the form, which is not in
    [app.js] (the markup of [#job-form] and the browser's check of its
    required fields are).  "Submit form: validate required fields are
    non-empty", and the data model has "title: ... required". *)
Definition requiredFieldsFilled (f : Dom.Form) : bool :=
  JS.truthy (Dom.job_title f).

(** Modelled from the spec: the submission of [#job-form].  The form is
    validated first (the part that is not in [app.js]); when it is valid
    the [submit] listener of [app.js] runs, which is [handleSaveJob]. *)
Definition onSubmit (uuid now : string) : M unit :=
  d ← getDom;
  if requiredFieldsFilled (Dom.job_form d)
  then handleSaveJob uuid now
  else mret tt.

(** The answer of the store to a request. *)
Inductive Reply := Fulfilled | Rejected.

(** The calls of [db] with the answer of the store.  On an error
    ([request.onerror]) the request has been sent, the store is as it
    was, and the promise rejects: the [await] on it throws. *)
Definition getAllJobsReplied (reply : Reply) : M (list Job.t) :=
  match reply with
  | Fulfilled => db.getAllJobs
  | Rejected => request IDB.GetAll (fun s => s) ;; throw RequestError
  end.

Definition addJobReplied (reply : Reply) (job : Job.t) : M Job.t :=
  match reply with
  | Fulfilled => db.addJob job
  | Rejected => request (IDB.Put job) (fun s => s) ;; throw RequestError
  end.

Definition deleteJobReplied (reply : Reply) (id : string) : M unit :=
  match reply with
  | Fulfilled => db.deleteJob id
  | Rejected => request (IDB.Delete id) (fun s => s) ;; throw RequestError
  end.

(** [loadJobs] with the answer to its [getAll]: the assignment to
    [AppState.jobs] comes after the [await]. *)
Definition loadJobsReplied (reply : Reply) : M unit :=
  all ← getAllJobsReplied reply;
  updAppState (AppState.set_jobs (JS.sort byDueDate all)).

(** The three listeners that write, with the answers of the store: to
    their write and, in the two that reload, to the [getAll] of the
    reload.  With every answer [Fulfilled] they are [onDrop],
    [handleSaveJob] and [onDeleteClick]. *)
Definition onDropReplied (write : Reply) (jobId newStatus : string)
  : M unit :=
  st ← getAppState;
  let jobIndex :=
    JS.findIndex (fun j => String.eqb (Job.id j) jobId) (AppState.jobs st) in
  match (if (-1 <? jobIndex)%Z
         then AppState.jobs st !! Z.to_nat jobIndex else None) with
  | Some job =>
      if negb (String.eqb (Job.status job) newStatus) then
        let job' := Job.set_status newStatus job in
        updAppState (AppState.set_jobs
                       (<[Z.to_nat jobIndex := job']> (AppState.jobs st))) ;;
        addJobReplied write job' ;;
        renderCurrentView
      else mret tt
  | None => mret tt
  end.

Definition handleSaveJobReplied (write reload : Reply) (uuid now : string)
  : M unit :=
  d ← getDom;
  let f := Dom.job_form d in
  let id := if JS.truthy (Dom.job_id f) then Dom.job_id f else uuid in
  let tags :=
    List.filter JS.truthy (map JS.trim (JS.split_comma (Dom.job_tags f))) in
  let job := Job.mk id (Dom.job_title f) (Dom.job_desc f) (Dom.job_status f)
                    (Dom.job_priority f) (Dom.job_date f) tags now in
  addJobReplied write job ;;
  loadJobsReplied reload ;;
  renderCurrentView ;;
  closeModal.

Definition onDeleteClickReplied (write reload : Reply) (job : Job.t)
  (confirmed : bool) : M unit :=
  if confirmed then
    deleteJobReplied write (Job.id job) ;;
    loadJobsReplied reload ;;
    renderCurrentView
  else mret tt.




End Application.

(** ** A host and sample data for the examples *)

Module Sample.

Definition digit (c : ascii) : option Z :=
  let n := N_of_ascii c in
  if ((48 <=? n) && (n <=? 57))%N then Some (Z.of_N n - 48)%Z else None.

Fixpoint digits (acc : Z) (l : list ascii) : option Z :=
  match l with
  | [] => Some acc
  | c :: r => match digit c with
              | Some d => digits (10 * acc + d)%Z r
              | None => None
              end
  end.

Definition leap (y : Z) : bool :=
  ((y mod 4 =? 0) && (negb (y mod 100 =? 0) || (y mod 400 =? 0)))%Z.

Definition month_length (y m : Z) : Z :=
  if (m =? 2)%Z then (if leap y then 29 else 28)%Z
  else if ((m =? 4) || (m =? 6) || (m =? 9) || (m =? 11))%Z then 30%Z
  else 31%Z.

(** Days from 1970-01-01 to the civil date [y]-[m]-[d]. *)
Definition days_from_civil (y m d : Z) : Z :=
  let y' := (if m <=? 2 then y - 1 else y)%Z in
  let era := (y' / 400)%Z in
  let yoe := (y' - era * 400)%Z in
  let mp := ((m + 9) mod 12)%Z in
  let doy := ((153 * mp + 2) / 5 + d - 1)%Z in
  let doe := (yoe * 365 + yoe / 4 - yoe / 100 + doy)%Z in
  (era * 146097 + doe - 719468)%Z.

(** The date-only form [YYYY-MM-DD], which is what a date input holds:
    midnight UTC of that day; every other string is an invalid date. *)
Definition parse_date_only (s : string) : option Z :=
  match list_ascii_of_string s with
  | [y1; y2; y3; y4; "-"%char; m1; m2; "-"%char; d1; d2] =>
      match digits 0 [y1; y2; y3; y4], digits 0 [m1; m2], digits 0 [d1; d2] with
      | Some y, Some m, Some d =>
          if ((1 <=? m) && (m <=? 12) && (1 <=? d) && (d <=? month_length y m))%Z
          then Some (days_from_civil y m d * 86400000)%Z
          else None
      | _, _, _ => None
      end
  | _ => None
  end.

Definition host : Host := {| Date_parse := parse_date_only |}.

Definition job (id title status dueDate : string) (tags : list string)
  : Job.t :=
  Job.mk id title "" status "medium" dueDate tags "2024-05-01T09:00:00.000Z".

Definition draft : Job.t :=
  Job.mk "a1" "Draft spec" "" "todo" "high" "2024-06-01" ["writing"]
         "2024-05-01T09:00:00.000Z".

Definition blank_form : Dom.Form := Dom.form "" "" "" "todo" "medium" "" "".

Definition blank_dom : Dom.t :=
  Dom.mk (Dom.Items []) (every_column []) (every_column 0) []
         (Dom.stats 0 0 0 0) blank_form false.

Definition start (view : string) (store : IDB.Store) : World :=
  world (AppState.mk [] view "" true) store blank_dom [].

Definition early : Job.t := job "b" "Early" "done" "2024-01-05" [].
Definition middle : Job.t := job "c" "Middle" "review" "2024-03-01" ["x"].

(** A store of three records, in key order, and the world after
    [loadJobs] on it: the jobs in due-date order. *)
Definition store : IDB.Store := [draft; early; middle].

Definition loaded (view : string) : World :=
  world (AppState.mk [early; middle; draft] view "" true) store blank_dom [].

(** Six jobs in due-date order. *)
Definition six : list Job.t :=
  [ job "j1" "Plan" "todo" "2024-06-01" [];
    job "j2" "Draft" "todo" "2024-06-02" [];
    job "j3" "Edit" "review" "2024-06-03" [];
    job "j4" "Print" "in-progress" "2024-06-04" [];
    job "j5" "Bind" "done" "2024-06-05" [];
    job "j6" "Ship" "todo" "2024-06-06" [] ].

Definition dashboard_of_six : World :=
  world (AppState.mk six "dashboard" "" true) six blank_dom [].

(** A job whose status is the name of a member of [Object.prototype],
    between two jobs of known status. *)
Definition odd : Job.t := job "c" "Odd" "constructor" "2024-03-01" [].
Definition board_jobs : list Job.t := [early; odd; draft].

(** The job [draft] alone, on the kanban board; and the same with the
    form filled in to move it to done. *)
Definition board : World :=
  world (AppState.mk [draft] "kanban" "" true) [draft] blank_dom [].

Definition edit_form : Dom.Form :=
  Dom.form "a1" "Draft spec" "" "done" "high" "2024-06-01" "writing".

Definition board_editing : World :=
  world (AppState.mk [draft] "kanban" "" true) [draft]
        (Dom.mk (Dom.Items []) (every_column []) (every_column 0) []
                (Dom.stats 0 0 0 0) edit_form true) [].

End Sample.

(** ** Vocabulary of the properties *)

(** [q] occurs in [s]. *)
Definition occurs_in (q s : string) : Prop :=
  exists a b, s = (a ++ q ++ b)%string.

(** The first element of [l] that satisfies [p] is [x], at index [i]. *)
Definition first_at {A} (p : A -> bool) (l : list A) (i : nat) (x : A)
  : Prop :=
  l !! i = Some x /\ p x = true /\
  forall k y, k < i -> l !! k = Some y -> p y = false.

(** Order by a numeric key that every element has, and the comparator
    that subtracts the keys. *)
Definition key_le {A} (key : A -> option Z) (a b : A) : Prop :=
  exists x y, key a = Some x /\ key b = Some y /\ (x <= y)%Z.

Definition by_key {A} (key : A -> option Z) (a b : A) : option Z :=
  JS.date_minus (key a) (key b).

(** The keys of a store ascend strictly. *)
Definition key_lt (a b : Job.t) : Prop :=
  String.compare (Job.id a) (Job.id b) = Lt.

Definition well_keyed (s : IDB.Store) : Prop := StronglySorted key_lt s.

(** The record with key [id] gets status [v]; the others stay. *)
Definition retag (id v : string) (r : Job.t) : Job.t :=
  if String.eqb (Job.id r) id then Job.set_status v r else r.

(** A computation that only writes the document. *)
Definition document_only {A} (c : M A) : Prop :=
  forall w, appState (after c w) = appState w /\ idb (after c w) = idb w /\
            requests (after c w) = requests w.

(** The [data-status] of a column, which is its key in [columns]. *)
Definition column_status (c : Column) : string :=
  match c with
  | todo => "todo"
  | in_progress => "in-progress"
  | review => "review"
  | done => "done"
  end.

Definition in_column (c : Column) (job : Job.t) : bool :=
  String.eqb (Job.status job) (column_status c).

(** The cards of each column, for a list of jobs. *)
Definition buckets (jobs : list Job.t) : PerColumn (list Job.t) :=
  per_column (List.filter (in_column todo) jobs)
             (List.filter (in_column in_progress) jobs)
             (List.filter (in_column review) jobs)
             (List.filter (in_column done) jobs).

Definition per_column_zip {A B C} (f : A -> B -> C)
  (p : PerColumn A) (q : PerColumn B) : PerColumn C :=
  per_column (f (at_todo p) (at_todo q))
             (f (at_in_progress p) (at_in_progress q))
             (f (at_review p) (at_review q))
             (f (at_done p) (at_done q)).

Definition per_column_map {A B} (f : A -> B) (p : PerColumn A)
  : PerColumn B :=
  per_column (f (at_todo p)) (f (at_in_progress p)) (f (at_review p))
             (f (at_done p)).

(** No job has a status that names a member of [Object.prototype]. *)
Definition plain_statuses (jobs : list Job.t) : Prop :=
  Forall (fun j => JS.inherited (Job.status j) = false) jobs.

(** What the dashboard shows for the jobs it is given. *)
Definition recent (jobs : list Job.t) : Dom.RecentList :=
  match jobs with
  | [] => Dom.EmptyState
  | _ => Dom.Items (take 5 jobs)
  end.

(** The four counts of [updateStats], said with the statuses. *)
Definition summary_of (jobs : list Job.t) : Dom.Stats :=
  Dom.stats
    (length jobs)
    (length (filter (fun j => Job.status j = "in-progress") jobs))
    (length (filter (fun j => Job.status j = "done") jobs))
    (length (filter (fun j => Job.status j = "todo" \/ Job.status j = "review")
                    jobs)).

(** The renderer [renderCurrentView] calls for the active view. *)
Definition renderView (st : AppState.t) : M unit :=
  if String.eqb (AppState.view st) "dashboard"
  then renderRecentActivity (filteredJobs st)
  else if String.eqb (AppState.view st) "kanban"
  then renderKanban (filteredJobs st)
  else if String.eqb (AppState.view st) "list"
  then renderList (filteredJobs st)
  else mret tt.

(** The test of [findIndex] in the [drop] listener. *)
Definition has_id (jobId : string) (j : Job.t) : bool :=
  String.eqb (Job.id j) jobId.

(** The record [handleSaveJob] builds from the form. *)
Definition job_of_form (f : Dom.Form) (uuid now : string) : Job.t :=
  Job.mk (if JS.truthy (Dom.job_id f) then Dom.job_id f else uuid)
         (Dom.job_title f) (Dom.job_desc f) (Dom.job_status f)
         (Dom.job_priority f) (Dom.job_date f)
         (List.filter JS.truthy (map JS.trim (JS.split_comma (Dom.job_tags f))))
         now.



Section Vocabulary.
Context {host : Host}.

(** The time value of a job's due date. *)
Definition dueTime (j : Job.t) : option Z := Date_parse (Job.dueDate j).

(** [a] is due no later than [b], both dates being valid. *)
Definition due_le : Job.t -> Job.t -> Prop := key_le dueTime.

(** Memory holds the store's content in the order of [loadJobs]. *)
Definition in_sync (w : World) : Prop :=
  AppState.jobs (appState w) = JS.sort byDueDate (IDB.getAll (idb w)).

End Vocabulary.


(** ** More of the program *)

(** [a.join(', ')]. *)
Fixpoint join_comma_space (l : list string) : string :=
  match l with
  | [] => EmptyString
  | [x] => x
  | x :: r => (x ++ ", " ++ join_comma_space r)%string
  end.

(** [tagsInput.split(',').map(t => t.trim()).filter(t => t)] in
    [handleSaveJob]. *)
Definition parseTags (tagsInput : string) : list string :=
  List.filter JS.truthy (map JS.trim (JS.split_comma tagsInput)).

(** The values [openModal(job)] assigns to the fields of the form for a
    job ([job.desc || ''] is [job.desc], a string). *)
Definition form_of_job (job : Job.t) : Dom.Form :=
  Dom.form (Job.id job) (Job.title job) (Job.desc job) (Job.status job)
           (Job.priority job) (Job.dueDate job)
           (join_comma_space (Job.tags job)).

(** [job.updatedAt = now]. *)
Definition set_updatedAt (now : string) (j : Job.t) : Job.t :=
  Job.mk (Job.id j) (Job.title j) (Job.desc j) (Job.status j)
         (Job.priority j) (Job.dueDate j) (Job.tags j) now.


(** The [AppState] the script starts with. *)
Definition initialAppState : AppState.t :=
  AppState.mk [] "dashboard" "" true.

Definition alertText : string :=
  "Database error. Please use a modern browser.".

Section Start.
Context {host : Host}.

(** [initApp]; [opens] tells whether [db.init()] resolves and [reload]
    is the answer of the store to the [getAll] of [loadJobs].  The result
    is the text of the alert of the [catch] branch, if it is reached.
    [setupEventListeners] writes nothing in the world. *)
Definition initApp (opens : bool) (reload : Reply) : M (option string) :=
  fun w =>
    if opens then
      match (loadJobsReplied reload ;; renderCurrentView ;; updateStats) w with
      | (Returned _, w') => (Returned None, w')
      | (Thrown _, w') => (Returned (Some alertText), w')
      end
    else (Returned (Some alertText), w).

End Start.

(** ** More vocabulary *)

(** The jobs in front of the first job whose status names a member of
    [Object.prototype]. *)
Fixpoint before_inherited (jobs : list Job.t) : list Job.t :=
  match jobs with
  | [] => []
  | j :: r => if JS.inherited (Job.status j) then []
              else j :: before_inherited r
  end.

(** A tag as the form leaves it: not empty, without white space at its
    ends, without a comma. *)
Definition clean_tag (t : string) : Prop :=
  t <> "" /\ JS.trim t = t /\ ~ In ","%char (list_ascii_of_string t).

(** The status is one of the four of the board. *)
Definition known_status (j : Job.t) : Prop :=
  Job.status j = "todo" \/ Job.status j = "in-progress" \/
  Job.status j = "review" \/ Job.status j = "done".


(** A store with an invalid due date between two valid ones. *)
Definition undated_store : IDB.Store :=
  [ Sample.job "a" "March" "todo" "2024-03-01" [];
    Sample.job "b" "Undated" "todo" "" [];
    Sample.job "c" "January" "todo" "2024-01-01" [] ].

(** A store with two jobs due on the same day. *)
Definition tied_store : IDB.Store :=
  [ Sample.job "a" "March, first" "todo" "2024-03-01" [];
    Sample.job "b" "January" "todo" "2024-01-01" [];
    Sample.job "c" "March, second" "done" "2024-03-01" [] ].

Section Steps.
Context {host : Host}.

(** Every stored due date is a valid date. *)
Definition valid_dates (s : IDB.Store) : Prop :=
  Forall (fun r => is_Some (Date_parse (Job.dueDate r))) s.


End Steps.

(** The job is due at time [k]. *)
Definition due_at (host : Host) (k : Z) (j : Job.t) : bool :=
  match Date_parse (Job.dueDate j) with
  | Some t => Z.eqb t k
  | None => false
  end.

(** * Properties *)

(** ** The built-ins *)

Module JSFacts.
Import JS.

Lemma startsWith_spec s q :
  startsWith s q = true <-> exists b, s = (q ++ b)%string.
Proof.
  revert s; induction q as [|c q IH]; intros s.
  - split; [intros _; exists s; reflexivity | reflexivity].
  - destruct s as [|d s]; cbn [startsWith].
    + split; [discriminate | intros [b Hb]; discriminate].
    + rewrite andb_true_iff, Ascii.eqb_eq, IH. split.
      * intros [-> [b ->]]. exists b. reflexivity.
      * intros [b Hb]. injection Hb as -> ->. eauto.
Qed.

Lemma includes_spec s q : includes s q = true <-> occurs_in q s.
Proof.
  unfold occurs_in. induction s as [|d s IH].
  - cbn [includes]. rewrite orb_false_r, startsWith_spec. split.
    + intros [b Hb]. exists EmptyString, b. exact Hb.
    + intros [a [b Hab]]. destruct a; [eauto | discriminate].
  - cbn [includes]. rewrite orb_true_iff, startsWith_spec, IH. split.
    + intros [[b Hb] | [a [b Hab]]].
      * exists EmptyString, b. exact Hb.
      * exists (String d a), b. cbn. now rewrite Hab.
    + intros [a [b Hab]]. destruct a as [|e a]; cbn in Hab.
      * left. eauto.
      * right. injection Hab as _ ->. eauto.
Qed.

Lemma truthy_false s : truthy s = false <-> s = EmptyString.
Proof. destruct s; simpl; split; congruence. Qed.

(** [findIndex] returns -1 or an index of the list. *)
Lemma findIndex_range {A} (p : A -> bool) l :
  (findIndex p l = -1 \/ 0 <= findIndex p l < Z.of_nat (length l))%Z.
Proof.
  induction l as [|x l IH]; simpl; [now left|].
  destruct (p x); [right; lia|].
  destruct (Z.ltb_spec (findIndex p l) 0); [now left | right; lia].
Qed.

Lemma findIndex_none {A} (p : A -> bool) l :
  findIndex p l = (-1)%Z <-> Forall (fun x => p x = false) l.
Proof.
  induction l as [|x l IH]; simpl.
  - split; [constructor | reflexivity].
  - destruct (p x) eqn:Hx.
    + split; [discriminate | intros H; inversion H; congruence].
    + pose proof (findIndex_range p l).
      destruct (Z.ltb_spec (findIndex p l) 0); split; intros H1.
      * constructor; [exact Hx | apply IH; lia].
      * reflexivity.
      * lia.
      * inversion H1 as [|? ? _ Hl]; subst. apply IH in Hl. lia.
Qed.

Lemma findIndex_first {A} (p : A -> bool) l i x :
  first_at p l i x -> findIndex p l = Z.of_nat i.
Proof.
  revert i; induction l as [|y l IH]; intros i (Hi & Hp & Hfirst).
  - discriminate.
  - destruct i as [|i]; simpl in *.
    + injection Hi as ->. now rewrite Hp.
    + rewrite (Hfirst 0 y) by (simpl; auto with lia).
      rewrite (IH i).
      * destruct (Z.ltb_spec (Z.of_nat i) 0); lia.
      * repeat split; auto. intros k z Hk Hz. apply (Hfirst (S k)); auto with lia.
Qed.

(** [sort] rearranges. *)
Lemma sort_insert_perm {A} (cmp : A -> A -> option Z) x l :
  sort_insert cmp x l ≡ₚ x :: l.
Proof.
  induction l as [|y l IH]; simpl; [reflexivity|].
  destruct (comes_after (cmp x y)); [|reflexivity].
  rewrite IH. apply Permutation_swap.
Qed.

Lemma sort_perm {A} (cmp : A -> A -> option Z) l : sort cmp l ≡ₚ l.
Proof.
  induction l as [|x l IH]; simpl; [reflexivity|].
  now rewrite sort_insert_perm, IH.
Qed.

(** [sort] commutes with a map the comparator does not see. *)
Lemma sort_insert_map {A} (cmp : A -> A -> option Z) (f : A -> A) x l :
  (forall a b, cmp (f a) (f b) = cmp a b) ->
  sort_insert cmp (f x) (map f l) = map f (sort_insert cmp x l).
Proof.
  intros Hf. induction l as [|y l IH]; simpl; [reflexivity|].
  rewrite Hf. destruct (comes_after (cmp x y)); simpl; [now rewrite IH | reflexivity].
Qed.

Lemma sort_map {A} (cmp : A -> A -> option Z) (f : A -> A) l :
  (forall a b, cmp (f a) (f b) = cmp a b) ->
  sort cmp (map f l) = map f (sort cmp l).
Proof.
  intros Hf. induction l as [|x l IH]; simpl; [reflexivity|].
  now rewrite IH, sort_insert_map.
Qed.

(** With a key for every element and the comparator the difference of
    the keys, [sort] puts the keys in ascending order. *)
Section Keyed.
Context {A : Type} (key : A -> option Z).

Lemma sort_insert_sorted x l :
  is_Some (key x) -> Forall (fun a => is_Some (key a)) l ->
  StronglySorted (key_le key) l ->
  StronglySorted (key_le key) (sort_insert (by_key key) x l).
Proof.
  intros [kx Hx] Hall Hs. induction Hs as [|y l Hs IH Hy]; simpl.
  - repeat constructor.
  - inversion Hall as [|? ? [ky Hky] Hall']; subst.
    unfold by_key at 1. rewrite Hx, Hky. simpl.
    destruct (Z.ltb_spec 0 (kx - ky)) as [Hlt | Hge].
    + constructor; [auto|].
      rewrite sort_insert_perm. constructor; [|exact Hy].
      exists ky, kx. repeat split; auto; lia.
    + constructor; [constructor; assumption|].
      constructor.
      * exists kx, ky. repeat split; auto; lia.
      * eapply Forall_impl; [exact Hy|].
        intros a (y1 & a1 & H1 & H2 & H3).
        exists kx, a1. repeat split; auto. rewrite Hky in H1. injection H1 as <-. lia.
Qed.

Lemma sort_sorted l :
  Forall (fun a => is_Some (key a)) l ->
  StronglySorted (key_le key) (sort (by_key key) l).
Proof.
  induction 1 as [|x l Hx Hall IH]; simpl; [constructor|].
  apply sort_insert_sorted; auto.
  now rewrite sort_perm.
Qed.
End Keyed.

End JSFacts.

(** ** The object store *)

Module IDBFacts.

Lemma compare_refl x : String.compare x x = Eq.
Proof.
  pose proof (String.compare_antisym x x) as H.
  destruct (String.compare x x); simpl in H; congruence.
Qed.

Lemma compare_eq x y : String.compare x y = Eq <-> x = y.
Proof.
  split; [apply String.compare_eq_iff | intros ->; apply compare_refl].
Qed.

Lemma key_lt_ne a b : key_lt a b -> Job.id a <> Job.id b.
Proof. unfold key_lt. intros H E. rewrite E, compare_refl in H. discriminate. Qed.

Lemma ascii_compare_lt_trans a b c :
  Ascii.compare a b = Lt -> Ascii.compare b c = Lt -> Ascii.compare a c = Lt.
Proof.
  unfold Ascii.compare. rewrite !N.compare_lt_iff. lia.
Qed.

Lemma compare_lt_trans x : forall y z,
  String.compare x y = Lt -> String.compare y z = Lt ->
  String.compare x z = Lt.
Proof.
  induction x as [|a x IH]; intros [|b y] [|c z]; simpl; try congruence.
  destruct (Ascii.compare a b) eqn:Hab; try discriminate;
    destruct (Ascii.compare b c) eqn:Hbc; try discriminate; intros H1 H2.
  - apply Ascii.compare_eq_iff in Hab, Hbc. subst.
    assert (E : Ascii.compare c c = Eq) by (unfold Ascii.compare; apply N.compare_refl).
    rewrite E. eauto.
  - apply Ascii.compare_eq_iff in Hab. subst. now rewrite Hbc.
  - apply Ascii.compare_eq_iff in Hbc. subst. now rewrite Hab.
  - now rewrite (ascii_compare_lt_trans a b c).
Qed.

Lemma key_lt_trans a b c : key_lt a b -> key_lt b c -> key_lt a c.
Proof. unfold key_lt. apply compare_lt_trans. Qed.

Lemma put_elem job s x : x ∈ IDB.put job s -> x = job \/ x ∈ s.
Proof.
  induction s as [|r s IH]; simpl.
  - rewrite list_elem_of_singleton. auto.
  - destruct (String.compare (Job.id job) (Job.id r));
      rewrite !elem_of_cons; intuition.
Qed.

(** [put] and [delete] keep the keys of a store in order. *)
Lemma put_well_keyed job s : well_keyed s -> well_keyed (IDB.put job s).
Proof.
  induction 1 as [|r s Hs IH Hr]; simpl; [repeat constructor|].
  destruct (String.compare (Job.id job) (Job.id r)) eqn:E.
  - apply compare_eq in E. constructor; [assumption|].
    eapply Forall_impl; [exact Hr|]. intros x Hx. unfold key_lt in *. now rewrite E.
  - constructor; [now constructor|]. constructor; [exact E|].
    eapply Forall_impl; [exact Hr|]. intros x Hx. now apply (key_lt_trans job r x).
  - constructor; [exact IH|]. rewrite Forall_forall. intros x Hx.
    apply put_elem in Hx as [->|Hx].
    + unfold key_lt. rewrite String.compare_antisym, E. reflexivity.
    + rewrite Forall_forall in Hr. auto.
Qed.



Lemma delete_spec id s r :
  r ∈ IDB.delete id s <-> r ∈ s /\ Job.id r <> id.
Proof.
  unfold IDB.delete. rewrite !list_elem_of_In, filter_In, negb_true_iff.
  destruct (String.eqb_spec (Job.id r) id); intuition congruence.
Qed.

Lemma delete_absent id s :
  Forall (fun r => Job.id r <> id) s -> IDB.delete id s = s.
Proof.
  unfold IDB.delete. induction 1 as [|r s Hr Hs IH]; simpl; [reflexivity|].
  destruct (String.eqb_spec (Job.id r) id); [contradiction|]. simpl. now rewrite IH.
Qed.






End IDBFacts.

(** ** Running the program *)

Section Runs.
Context {host : Host}.

Lemma bind_run {A B} (c : M A) (k : A -> M B) w :
  (c ≫= k) w = match c w with
               | (Returned a, w') => k a w'
               | (Thrown e, w') => (Thrown e, w')
               end.
Proof. reflexivity. Qed.

Lemma document_only_bind {A B} (c : M A) (k : A -> M B) :
  document_only c -> (forall a, document_only (k a)) ->
  document_only (c ≫= k).
Proof.
  intros Hc Hk w. unfold after. rewrite bind_run.
  specialize (Hc w). unfold after in Hc.
  destruct (c w) as [[a|e] w1]; simpl in *.
  - specialize (Hk a w1). unfold after in Hk. intuition congruence.
  - exact Hc.
Qed.

Lemma document_only_updDom f : document_only (updDom f).
Proof. intros w. now destruct w. Qed.

Lemma document_only_ret {A} (a : A) : document_only (mret a : M A).
Proof. intros w. now destruct w. Qed.

Lemma document_only_throw {A} e : document_only (throw e : M A).
Proof. intros w. now destruct w. Qed.

Lemma document_only_forEach {A} (f : A -> M unit) l :
  (forall x, document_only (f x)) -> document_only (forEach f l).
Proof.
  intros Hf. induction l as [|x l IH]; simpl.
  - apply document_only_ret.
  - apply document_only_bind; auto.
Qed.

Lemma document_only_fillColumns jobs counts :
  document_only (fillColumns jobs counts).
Proof.
  revert counts; induction jobs as [|job jobs IH]; intros counts; simpl.
  - apply document_only_ret.
  - destruct (columns_at (Job.status job)).
    + apply document_only_bind; [apply document_only_updDom | auto].
    + apply document_only_throw.
    + apply IH.
Qed.

Lemma document_only_renderKanban jobs : document_only (renderKanban jobs).
Proof.
  unfold renderKanban.
  apply document_only_bind; [apply document_only_updDom|]. intros _.
  apply document_only_bind; [apply document_only_fillColumns|]. intros c.
  apply document_only_updDom.
Qed.

Lemma document_only_renderList jobs : document_only (renderList jobs).
Proof.
  unfold renderList.
  apply document_only_bind; [apply document_only_updDom|]. intros _.
  apply document_only_forEach. intros x. apply document_only_updDom.
Qed.

Lemma document_only_renderRecentActivity jobs :
  document_only (renderRecentActivity jobs).
Proof.
  unfold renderRecentActivity.
  apply document_only_bind; [apply document_only_updDom|]. intros _.
  destruct (Nat.eqb (length jobs) 0); [apply document_only_updDom|].
  apply document_only_forEach. intros x. apply document_only_updDom.
Qed.

Lemma document_only_updateStats : document_only updateStats.
Proof. intros w. now destruct w. Qed.

Lemma document_only_getAppState : document_only getAppState.
Proof. intros w. now destruct w. Qed.

Lemma document_only_renderCurrentView : document_only renderCurrentView.
Proof.
  unfold renderCurrentView.
  apply document_only_bind; [apply document_only_getAppState|]. intros st.
  apply document_only_bind; [|intros _; apply document_only_updateStats].
  destruct (String.eqb (AppState.view st) "dashboard");
    [apply document_only_renderRecentActivity|].
  destruct (String.eqb (AppState.view st) "kanban");
    [apply document_only_renderKanban|].
  destruct (String.eqb (AppState.view st) "list");
    [apply document_only_renderList | apply document_only_ret].
Qed.

End Runs.

(** ** What each renderer writes *)

Section Renders.
Context {host : Host}.

Lemma columns_at_own s c : columns_at s = Own c <-> s = column_status c.
Proof.
  unfold columns_at.
  destruct (String.eqb_spec s "todo") as [->|H1];
    [destruct c; simpl; split; congruence|].
  destruct (String.eqb_spec s "in-progress") as [->|H2];
    [destruct c; simpl; split; congruence|].
  destruct (String.eqb_spec s "review") as [->|H3];
    [destruct c; simpl; split; congruence|].
  destruct (String.eqb_spec s "done") as [->|H4];
    [destruct c; simpl; split; congruence|].
  split.
  - destruct (JS.inherited s); discriminate.
  - intros ->. destruct c; simpl in *; congruence.
Qed.

Lemma columns_at_inherited s :
  columns_at s = Inherited -> JS.inherited s = true.
Proof.
  unfold columns_at.
  repeat match goal with
         | |- context [String.eqb s ?k] => destruct (String.eqb s k)
         end; try discriminate.
  destruct (JS.inherited s); [reflexivity | discriminate].
Qed.

Lemma in_column_own job c :
  columns_at (Job.status job) = Own c -> in_column c job = true.
Proof.
  intros H. apply columns_at_own in H. unfold in_column. rewrite H.
  apply String.eqb_refl.
Qed.

Lemma in_column_other job c c' :
  columns_at (Job.status job) = Own c -> c' <> c -> in_column c' job = false.
Proof.
  intros H Hne. apply columns_at_own in H. unfold in_column. rewrite H.
  destruct c, c'; try reflexivity; contradiction.
Qed.

Lemma in_column_undefined job :
  columns_at (Job.status job) = Undefined ->
  forall c', in_column c' job = false.
Proof.
  intros H c'. unfold in_column.
  destruct (String.eqb_spec (Job.status job) (column_status c')) as [E|]; [|reflexivity].
  apply columns_at_own in E. congruence.
Qed.

Lemma fillColumns_run jobs : forall counts a s d r,
  plain_statuses jobs ->
  fillColumns jobs counts (world a s d r) =
    (Returned (per_column_zip Nat.add counts
                 (per_column_map (@length _) (buckets jobs))),
     world a s
       (Dom.set_columns
          (per_column_zip (@List.app _) (Dom.columns d) (buckets jobs)) d) r).
Proof.
  induction jobs as [|job jobs IH]; intros counts a s d r Hplain.
  - destruct counts, d as [? [] ? ? ? ? ?]. cbn.
    unfold per_column_zip. cbn. rewrite !Nat.add_0_r, !app_nil_r. reflexivity.
  - inversion Hplain as [|? ? Hj Hrest]; subst.
    cbn [fillColumns].
    destruct (columns_at (Job.status job)) as [c| |] eqn:Hc.
    + rewrite bind_run. cbn [updDom appState idb dom requests].
      rewrite IH by assumption.
      unfold buckets. cbn [List.filter].
      destruct counts, d as [? [] ? ? ? ? ?], c;
        rewrite (in_column_own job _ Hc),
                !(in_column_other job _ _ Hc) by discriminate;
        cbn; unfold per_column_zip; cbn;
        rewrite <- ?app_assoc, ?Nat.add_succ_r; reflexivity.
    + apply columns_at_inherited in Hc. congruence.
    + rewrite IH by assumption.
      unfold buckets. cbn [List.filter].
      rewrite !(in_column_undefined job Hc). reflexivity.
Qed.

Lemma renderKanban_run jobs a s d r :
  plain_statuses jobs ->
  renderKanban jobs (world a s d r) =
    (Returned tt,
     world a s
       (Dom.set_counts (per_column_map (@length _) (buckets jobs))
          (Dom.set_columns (buckets jobs) d)) r).
Proof.
  intros Hplain. unfold renderKanban.
  rewrite bind_run. cbn [updDom appState idb dom requests].
  rewrite bind_run, fillColumns_run by assumption.
  destruct d. reflexivity.
Qed.

Lemma forEach_rows jobs : forall a s d r,
  forEach (fun job => updDom (fun d =>
     Dom.set_job_table_body (Dom.job_table_body d ++ [job]) d)) jobs
    (world a s d r) =
  (Returned tt,
   world a s (Dom.set_job_table_body (Dom.job_table_body d ++ jobs) d) r).
Proof.
  induction jobs as [|job jobs IH]; intros a s d r.
  - destruct d. cbn. now rewrite app_nil_r.
  - cbn [forEach]. rewrite bind_run. cbn [updDom appState idb dom requests].
    rewrite IH. destruct d. cbn. now rewrite <- app_assoc.
Qed.

Lemma renderList_run jobs a s d r :
  renderList jobs (world a s d r) =
    (Returned tt, world a s (Dom.set_job_table_body jobs d) r).
Proof.
  unfold renderList. rewrite bind_run. cbn [updDom appState idb dom requests].
  rewrite forEach_rows. destruct d. reflexivity.
Qed.

Lemma forEach_items jobs : forall a s d r l,
  Dom.recent_list d = Dom.Items l ->
  forEach (fun job => updDom (fun d =>
     Dom.set_recent_list (appendItem job (Dom.recent_list d)) d)) jobs
    (world a s d r) =
  (Returned tt,
   world a s (Dom.set_recent_list (Dom.Items (l ++ jobs)) d) r).
Proof.
  induction jobs as [|job jobs IH]; intros a s d r l Hl.
  - destruct d. cbn in *. now rewrite app_nil_r, Hl.
  - cbn [forEach]. rewrite bind_run. cbn [updDom appState idb dom requests].
    rewrite (IH _ _ _ _ (l ++ [job])).
    + destruct d. cbn. now rewrite <- app_assoc.
    + destruct d. cbn in *. now rewrite Hl.
Qed.

Lemma renderRecentActivity_run jobs a s d r :
  renderRecentActivity jobs (world a s d r) =
    (Returned tt, world a s (Dom.set_recent_list (recent jobs) d) r).
Proof.
  unfold renderRecentActivity. rewrite bind_run.
  cbn [updDom appState idb dom requests].
  destruct jobs as [|j jobs].
  - destruct d. reflexivity.
  - cbn [length Nat.eqb]. rewrite (forEach_items _ _ _ _ _ []).
    + destruct d. reflexivity.
    + destruct d. reflexivity.
Qed.

Lemma buckets_spec jobs c j :
  j ∈ at_column c (buckets jobs) <-> j ∈ jobs /\ Job.status j = column_status c.
Proof.
  destruct c; cbn [at_column buckets at_todo at_in_progress at_review at_done];
    rewrite list_elem_of_In, filter_In, <- list_elem_of_In; unfold in_column;
    now rewrite String.eqb_eq.
Qed.

(** With no status that names a member of [Object.prototype] among the
    jobs, [renderKanban] returns, each column holds the jobs of its
    status, and each count is the size of its column. *)
Lemma kanban_places_known_statuses jobs w :
  plain_statuses jobs ->
  let d := dom (after (renderKanban jobs) w) in
  outcome (renderKanban jobs) w = Returned tt /\
  (forall c j, j ∈ at_column c (Dom.columns d) <->
               j ∈ jobs /\ Job.status j = column_status c) /\
  (forall c, at_column c (Dom.counts d) = length (at_column c (Dom.columns d))).
Proof.
  intros Hp. destruct w as [a s d0 r]. unfold outcome, after.
  rewrite renderKanban_run by assumption. cbn [fst snd dom].
  split; [reflexivity|]. destruct d0. cbn. split.
  - intros c j. apply buckets_spec.
  - intros []; reflexivity.
Qed.

End Renders.

(** ** The handlers, step by step *)

Section Handlers.
Context {host : Host}.

Lemma count_where_filter (p : Job.t -> bool) (P : Job.t -> Prop)
  `{forall j, Decision (P j)} jobs :
  (forall j, p j = true <-> P j) ->
  count_where p jobs = length (filter P jobs).
Proof.
  intros Hp. unfold count_where. induction jobs as [|j jobs IH]; [reflexivity|].
  cbn [List.filter]. rewrite filter_cons.
  destruct (decide (P j)) as [Hj|Hj], (p j) eqn:E; simpl; auto.
  - apply Hp in Hj. congruence.
  - apply Hp in E. contradiction.
Qed.

Lemma updateStats_run a s d r :
  updateStats (world a s d r) =
    (Returned tt,
     world a s (Dom.set_summary (summary_of (AppState.jobs a)) d) r).
Proof.
  unfold updateStats. rewrite bind_run. cbn [getAppState appState].
  unfold updDom. cbn [appState idb dom requests].
  unfold summary_of.
  rewrite (count_where_filter _ (fun j => Job.status j = "in-progress")),
          (count_where_filter _ (fun j => Job.status j = "done")),
          (count_where_filter _ (fun j => Job.status j = "todo" \/
                                          Job.status j = "review")).
  - reflexivity.
  - intros j. rewrite orb_true_iff, !String.eqb_eq. reflexivity.
  - intros j. apply String.eqb_eq.
  - intros j. apply String.eqb_eq.
Qed.

Lemma renderCurrentView_run w :
  renderCurrentView w =
    match renderView (appState w) w with
    | (Returned _, w') => updateStats w'
    | (Thrown e, w') => (Thrown e, w')
    end.
Proof. reflexivity. Qed.





Lemma loadJobs_run a s d r :
  loadJobs (world a s d r) =
    (Returned tt,
     world (AppState.set_jobs (JS.sort byDueDate s) a) s d
           (r ++ [IDB.GetAll])).
Proof. reflexivity. Qed.

Lemma onDrop_miss jobId newStatus w :
  Forall (fun j => Job.id j <> jobId) (AppState.jobs (appState w)) ->
  onDrop jobId newStatus w = (Returned tt, w).
Proof.
  intros H. unfold onDrop. rewrite bind_run. cbn [getAppState].
  assert (E : JS.findIndex (has_id jobId) (AppState.jobs (appState w)) = (-1)%Z).
  { apply JSFacts.findIndex_none. eapply Forall_impl; [exact H|].
    intros j Hj. unfold has_id. now destruct (String.eqb_spec (Job.id j) jobId). }
  unfold has_id in E. rewrite E. reflexivity.
Qed.

Lemma onDrop_same jobId i job w :
  first_at (has_id jobId) (AppState.jobs (appState w)) i job ->
  onDrop jobId (Job.status job) w = (Returned tt, w).
Proof.
  intros H. unfold onDrop. rewrite bind_run. cbn [getAppState].
  pose proof (JSFacts.findIndex_first _ _ _ _ H) as E. unfold has_id in E.
  rewrite E. destruct H as (Hi & _).
  destruct (Z.ltb_spec (-1) (Z.of_nat i)); [|lia].
  rewrite Nat2Z.id, Hi, String.eqb_refl. reflexivity.
Qed.

Lemma onDrop_change jobId newStatus i job a s d r :
  first_at (has_id jobId) (AppState.jobs a) i job ->
  Job.status job <> newStatus ->
  onDrop jobId newStatus (world a s d r) =
    renderCurrentView
      (world (AppState.set_jobs
                (<[i := Job.set_status newStatus job]> (AppState.jobs a)) a)
             (IDB.put (Job.set_status newStatus job) s) d
             (r ++ [IDB.Put (Job.set_status newStatus job)])).
Proof.
  intros H Hne. unfold onDrop. rewrite bind_run. cbn [getAppState appState].
  pose proof (JSFacts.findIndex_first _ _ _ _ H) as E. unfold has_id in E.
  rewrite E. destruct H as (Hi & _).
  destruct (Z.ltb_spec (-1) (Z.of_nat i)); [|lia].
  rewrite Nat2Z.id, Hi.
  destruct (String.eqb_spec (Job.status job) newStatus); [contradiction|].
  reflexivity.
Qed.

Lemma onDeleteClick_run job a s d r :
  onDeleteClick job true (world a s d r) =
    renderCurrentView
      (world (AppState.set_jobs
                (JS.sort byDueDate (IDB.delete (Job.id job) s)) a)
             (IDB.delete (Job.id job) s) d
             (r ++ [IDB.Delete (Job.id job); IDB.GetAll])).
Proof.
  change [IDB.Delete (Job.id job); IDB.GetAll]
    with ([IDB.Delete (Job.id job)] ++ [IDB.GetAll]).
  rewrite app_assoc. reflexivity.
Qed.

Lemma handleSaveJob_run uuid now a s d r :
  let job := job_of_form (Dom.job_form d) uuid now in
  handleSaveJob uuid now (world a s d r) =
    (renderCurrentView ;; closeModal)
      (world (AppState.set_jobs (JS.sort byDueDate (IDB.put job s)) a)
             (IDB.put job s) d
             (r ++ [IDB.Put job; IDB.GetAll])).
Proof.
  intros job.
  change [IDB.Put job; IDB.GetAll] with ([IDB.Put job] ++ [IDB.GetAll]).
  rewrite app_assoc. reflexivity.
Qed.

Lemma document_only_closeModal : document_only closeModal.
Proof. apply document_only_updDom. Qed.

End Handlers.

(** ** Reload and the store *)

Section Sync.
Context {host : Host}.

Lemma filter_StronglySorted {A} (R : A -> A -> Prop) (p : A -> bool) l :
  StronglySorted R l -> StronglySorted R (List.filter p l).
Proof.
  induction 1 as [|x l Hl IH Hx]; simpl; [constructor|].
  destruct (p x); [|exact IH].
  constructor; [exact IH|].
  rewrite Forall_forall in *. intros y Hy. apply Hx.
  rewrite list_elem_of_In in *. now apply filter_In in Hy.
Qed.

Lemma filter_sublist {A} (p : A -> bool) (l : list A) :
  List.filter p l `sublist_of` l.
Proof.
  induction l as [|x l IH]; simpl; [constructor|].
  destruct (p x); now constructor.
Qed.

Lemma findIndex_cases {A} (p : A -> bool) l :
  Forall (fun x => p x = false) l \/ exists i x, first_at p l i x.
Proof.
  induction l as [|y l IH]; [left; constructor|].
  destruct (p y) eqn:Hy.
  - right. exists 0, y. repeat split; auto. intros k z Hk. lia.
  - destruct IH as [IH | (i & x & Hi & Hp & Hfirst)].
    + left. now constructor.
    + right. exists (S i), x. repeat split; auto.
      intros [|k] z Hk Hz; simpl in Hz.
      * congruence.
      * apply (Hfirst k); auto with lia.
Qed.

Lemma byDueDate_retag id v a b :
  byDueDate (retag id v a) (retag id v b) = byDueDate a b.
Proof.
  unfold byDueDate, retag.
  destruct (String.eqb (Job.id a) id), (String.eqb (Job.id b) id); reflexivity.
Qed.






End Sync.

(** ** The properties of the specification *)

Section StatsDeleteDrop.
Context {host : Host}.


(** C5.  After [deleteJob id], [getAllJobs] returns the stored records
    without those of that id, so none of them has it; the click on a
    card's delete button, once confirmed, leaves no job of that id in
    memory either.  When no stored record has the id, [deleteJob] returns
    normally and the store is as before. *)
Theorem delete_then_getAll (id : string) (w : World) :
  (outcome (db.deleteJob id ;; db.getAllJobs) w =
     Returned (IDB.delete id (idb w)) /\
   forall r, r ∈ IDB.delete id (idb w) <-> r ∈ idb w /\ Job.id r <> id) /\
  (forall job r, Job.id job = id ->
     r ∈ AppState.jobs (appState (after (onDeleteClick job true) w)) ->
     Job.id r <> id) /\
  (Forall (fun r => Job.id r <> id) (idb w) ->
     outcome (db.deleteJob id) w = Returned tt /\
     idb (after (db.deleteJob id) w) = idb w).
Proof.
  split; [split|split].
  - reflexivity.
  - apply IDBFacts.delete_spec.
  - intros job r <- Hr.
    assert (E : AppState.jobs (appState (after (onDeleteClick job true) w)) =
                JS.sort byDueDate (IDB.delete (Job.id job) (idb w))).
    { destruct w as [a s d q]. unfold after. rewrite onDeleteClick_run.
      match goal with |- context [renderCurrentView ?v] =>
        pose proof (document_only_renderCurrentView v) as (Ha & _) end.
      unfold after in Ha. now rewrite Ha. }
    rewrite E, JSFacts.sort_perm in Hr.
    now apply IDBFacts.delete_spec in Hr.
  - intros Habsent. split; [reflexivity|].
    simpl. now apply IDBFacts.delete_absent.
Qed.

(** C10.  A drop whose job id is the id of no job in memory changes
    nothing: the handler returns and the world (the collection, the
    store, the requests sent to it and the document) is as before. *)
Theorem drop_unknown_id_noop (jobId newStatus : string) (w : World) :
  Forall (fun j => Job.id j <> jobId) (AppState.jobs (appState w)) ->
  outcome (onDrop jobId newStatus) w = Returned tt /\
  after (onDrop jobId newStatus) w = w.
Proof.
  intros H. unfold outcome, after. now rewrite onDrop_miss.
Qed.

(** C9.  Let the dragged job be the first job in memory with the dragged
    id, at index [i].  A drop on a column of another status writes that
    status at index [i] and nothing else in [AppState]: the job's other
    fields, the other jobs, the view and the filter are as before; it
    then sends the changed record in one [put] to the store.  A drop on
    the column of the job's own status leaves the world as it was and
    sends no request. *)
Theorem drop_changes_one_status
  (jobId newStatus : string) (i : nat) (job : Job.t) (w : World) :
  AppState.jobs (appState w) !! i = Some job ->
  Job.id job = jobId ->
  (forall k j, k < i -> AppState.jobs (appState w) !! k = Some j ->
               Job.id j <> jobId) ->
  let w' := after (onDrop jobId newStatus) w in
  let job' := Job.set_status newStatus job in
  (Job.status job <> newStatus ->
     AppState.jobs (appState w') = <[i := job']> (AppState.jobs (appState w)) /\
     (Job.status job' = newStatus /\ Job.id job' = Job.id job /\
      Job.title job' = Job.title job /\ Job.desc job' = Job.desc job /\
      Job.priority job' = Job.priority job /\
      Job.dueDate job' = Job.dueDate job /\ Job.tags job' = Job.tags job /\
      Job.updatedAt job' = Job.updatedAt job) /\
     (forall k, k <> i ->
        AppState.jobs (appState w') !! k = AppState.jobs (appState w) !! k) /\
     AppState.view (appState w') = AppState.view (appState w) /\
     AppState.filter (appState w') = AppState.filter (appState w) /\
     AppState.darkMode (appState w') = AppState.darkMode (appState w) /\
     idb w' = IDB.put job' (idb w) /\
     requests w' = requests w ++ [IDB.Put job']) /\
  (Job.status job = newStatus ->
     outcome (onDrop jobId newStatus) w = Returned tt /\ w' = w).
Proof.
  intros Hi Hid Hfirst w' job'.
  assert (Hat : first_at (has_id jobId) (AppState.jobs (appState w)) i job).
  { repeat split; [assumption | |].
    - unfold has_id. rewrite Hid. apply String.eqb_refl.
    - intros k j Hk Hj. unfold has_id.
      destruct (String.eqb_spec (Job.id j) jobId); [|reflexivity].
      now apply (Hfirst k j Hk) in Hj. }
  split.
  - intros Hne. subst w'. destruct w as [a s d r]. unfold after.
    rewrite (onDrop_change _ _ _ _ _ _ _ _ Hat Hne).
    match goal with |- context [renderCurrentView ?v] =>
      pose proof (document_only_renderCurrentView v) as (Ha & Hs & Hr) end.
    unfold after in Ha, Hs, Hr. rewrite Ha, Hs, Hr. cbn.
    repeat split.
    intros k Hk. now apply list_lookup_insert_ne.
  - intros <-. subst w'. unfold outcome, after.
    now rewrite (onDrop_same _ _ _ _ Hat).
Qed.

End StatsDeleteDrop.

Section ReloadWritesSubmit.
Context {host : Host}.

Lemma renderCurrentView_dashboard a s d r :
  AppState.view a = "dashboard" ->
  renderCurrentView (world a s d r) =
    (Returned tt,
     world a s
       (Dom.set_summary (summary_of (AppState.jobs a))
          (Dom.set_recent_list (recent (filteredJobs a)) d)) r).
Proof.
  intros Hv. rewrite renderCurrentView_run. unfold renderView.
  cbn [appState]. rewrite Hv. cbn [String.eqb Ascii.eqb Bool.eqb].
  now rewrite renderRecentActivity_run, updateStats_run.
Qed.

Lemma renderCurrentView_list a s d r :
  AppState.view a = "list" ->
  renderCurrentView (world a s d r) =
    (Returned tt,
     world a s
       (Dom.set_summary (summary_of (AppState.jobs a))
          (Dom.set_job_table_body (filteredJobs a) d)) r).
Proof.
  intros Hv. rewrite renderCurrentView_run. unfold renderView.
  cbn [appState]. rewrite Hv. cbn [String.eqb Ascii.eqb Bool.eqb].
  now rewrite renderList_run, updateStats_run.
Qed.

Lemma renderCurrentView_kanban a s d r :
  AppState.view a = "kanban" ->
  plain_statuses (filteredJobs a) ->
  renderCurrentView (world a s d r) =
    (Returned tt,
     world a s
       (Dom.set_summary (summary_of (AppState.jobs a))
          (Dom.set_counts (per_column_map (@length _) (buckets (filteredJobs a)))
             (Dom.set_columns (buckets (filteredJobs a)) d))) r).
Proof.
  intros Hv Hp. rewrite renderCurrentView_run. unfold renderView.
  cbn [appState]. rewrite Hv. cbn [String.eqb Ascii.eqb Bool.eqb].
  now rewrite renderKanban_run, updateStats_run.
Qed.

Lemma handleSaveJob_leaves uuid now w :
  let job := job_of_form (Dom.job_form (dom w)) uuid now in
  let w' := after (handleSaveJob uuid now) w in
  requests w' = requests w ++ [IDB.Put job; IDB.GetAll] /\
  idb w' = IDB.put job (idb w) /\
  AppState.jobs (appState w') = JS.sort byDueDate (IDB.put job (idb w)).
Proof.
  destruct w as [a s d r]. intros job w'. subst w'. unfold after.
  rewrite handleSaveJob_run.
  match goal with |- context [(?c ;; closeModal) ?v] =>
    pose proof (document_only_bind c (fun _ => closeModal)
                  document_only_renderCurrentView
                  (fun _ => document_only_closeModal) v) as (Ha & Hs & Hr) end.
  unfold after in Ha, Hs, Hr. rewrite Ha, Hs, Hr. cbn. auto.
Qed.

(** [handleSaveJob] itself does not look at the title: called with an
    empty title field, it puts a record with an empty title. *)
Lemma handleSaveJob_does_not_check uuid now w :
  Dom.job_title (Dom.job_form (dom w)) = "" ->
  exists job, Job.title job = "" /\
    requests (after (handleSaveJob uuid now) w) =
      requests w ++ [IDB.Put job; IDB.GetAll].
Proof.
  intros Ht. exists (job_of_form (Dom.job_form (dom w)) uuid now).
  split; [exact Ht|]. exact (proj1 (handleSaveJob_leaves uuid now w)).
Qed.

(** C4 (amended).  [loadJobs] returns and leaves in memory a
    rearrangement of the store's records; when every stored due date is a
    valid date, they are in ascending order of due date (with an invalid
    date in the store nothing is said of the order, of the jobs with
    valid dates either).  In the dashboard view the render
    returns; the jobs it is given are the jobs that pass the filter, in
    their order in memory (so in due-date order when memory is); it shows
    the first five of them, all of them when they are fewer, and the
    empty-state message exactly when there is none. *)
Theorem reload_sorts_dashboard_takes_five (w : World) :
  let jobs' := AppState.jobs (appState (after loadJobs w)) in
  (outcome loadJobs w = Returned tt /\
   jobs' ≡ₚ IDB.getAll (idb w) /\
   (Forall (fun r => is_Some (Date_parse (Job.dueDate r))) (idb w) ->
    StronglySorted due_le jobs')) /\
  (forall v, AppState.view (appState v) = "dashboard" ->
     let given := filteredJobs (appState v) in
     let shown := Dom.recent_list (dom (after renderCurrentView v)) in
     outcome renderCurrentView v = Returned tt /\
     given `sublist_of` AppState.jobs (appState v) /\
     (StronglySorted due_le (AppState.jobs (appState v)) ->
      StronglySorted due_le given) /\
     (given <> [] -> shown = Dom.Items (take 5 given)) /\
     (length given <= 5 -> given <> [] -> shown = Dom.Items given) /\
     (shown = Dom.EmptyState <-> given = [])).
Proof.
  intros jobs'. split.
  - destruct w as [a s d r]. subst jobs'. unfold outcome, after.
    rewrite loadJobs_run. cbn. split; [reflexivity|]. split.
    + apply JSFacts.sort_perm.
    + intros Hvalid. apply (JSFacts.sort_sorted dueTime). exact Hvalid.
  - intros [a s d r] Hv given shown. cbn in Hv. subst given shown.
    unfold outcome, after. rewrite (renderCurrentView_dashboard _ _ _ _ Hv).
    cbn [fst snd appState dom].
    assert (E : forall x dd, Dom.recent_list (Dom.set_summary x
                  (Dom.set_recent_list (recent (filteredJobs a)) dd)) =
                recent (filteredJobs a)) by (intros x []; reflexivity).
    rewrite E. split; [reflexivity|]. split; [apply filter_sublist|].
    split; [apply filter_StronglySorted|].
    destruct (filteredJobs a) as [|j l] eqn:Ef; cbn [recent].
    + split; [congruence|]. split; [congruence|]. split; reflexivity.
    + split; [reflexivity|]. split.
      * intros Hlen _. now rewrite take_ge.
      * split; discriminate.
Qed.

(** The drop sends its one [put], or nothing. *)
Lemma onDrop_requests jobId newStatus w :
  requests (after (onDrop jobId newStatus) w) = requests w \/
  exists job', requests (after (onDrop jobId newStatus) w) =
               requests w ++ [IDB.Put job'].
Proof.
  destruct (findIndex_cases (has_id jobId) (AppState.jobs (appState w)))
    as [Hnone | (i & job & Hat)].
  - left. unfold after. rewrite onDrop_miss; [reflexivity|].
    eapply Forall_impl; [exact Hnone|]. intros j Hj E. unfold has_id in Hj.
    rewrite E, String.eqb_refl in Hj. discriminate.
  - destruct (String.eqb_spec (Job.status job) newStatus) as [<-|Hne].
    + left. unfold after. now rewrite (onDrop_same _ _ _ _ Hat).
    + right. exists (Job.set_status newStatus job).
      destruct w as [a s d r]. unfold after.
      rewrite (onDrop_change _ _ _ _ _ _ _ _ Hat Hne).
      match goal with |- context [renderCurrentView ?v] =>
        pose proof (document_only_renderCurrentView v) as (_ & _ & Hr) end.
      exact Hr.
Qed.

Lemma onDrop_well_keyed jobId newStatus w :
  well_keyed (idb w) -> well_keyed (idb (after (onDrop jobId newStatus) w)).
Proof.
  intros Hk.
  destruct (findIndex_cases (has_id jobId) (AppState.jobs (appState w)))
    as [Hnone | (i & job & Hat)].
  - unfold after. rewrite onDrop_miss; [exact Hk|].
    eapply Forall_impl; [exact Hnone|]. intros j Hj E. unfold has_id in Hj.
    rewrite E, String.eqb_refl in Hj. discriminate.
  - destruct (String.eqb_spec (Job.status job) newStatus) as [<-|Hne].
    + unfold after. now rewrite (onDrop_same _ _ _ _ Hat).
    + destruct w as [a s d r]. unfold after.
      rewrite (onDrop_change _ _ _ _ _ _ _ _ Hat Hne).
      match goal with |- context [renderCurrentView ?v] =>
        pose proof (document_only_renderCurrentView v) as (_ & Hi & _) end.
      unfold after in Hi. rewrite Hi. cbn. now apply IDBFacts.put_well_keyed.
Qed.

Lemma onDeleteClick_leaves job w :
  let w' := after (onDeleteClick job true) w in
  requests w' = requests w ++ [IDB.Delete (Job.id job); IDB.GetAll] /\
  idb w' = IDB.delete (Job.id job) (idb w) /\
  AppState.jobs (appState w') =
    JS.sort byDueDate (IDB.delete (Job.id job) (idb w)).
Proof.
  destruct w as [a s d r]. intros w'. subst w'. unfold after.
  rewrite onDeleteClick_run.
  match goal with |- context [renderCurrentView ?v] =>
    pose proof (document_only_renderCurrentView v) as (Ha & Hs & Hr) end.
  unfold after in Ha, Hs, Hr. rewrite Ha, Hs, Hr. cbn. auto.
Qed.






(** A save or a delete whose write is rejected throws with memory and
    store as they were. *)
Lemma handleSaveJobReplied_rejected reload uuid now w :
  outcome (handleSaveJobReplied Rejected reload uuid now) w =
    Thrown RequestError /\
  appState (after (handleSaveJobReplied Rejected reload uuid now) w) =
    appState w /\
  idb (after (handleSaveJobReplied Rejected reload uuid now) w) = idb w.
Proof. destruct w. repeat split. Qed.

Lemma onDeleteClickReplied_rejected reload job w :
  outcome (onDeleteClickReplied Rejected reload job true) w =
    Thrown RequestError /\
  appState (after (onDeleteClickReplied Rejected reload job true) w) =
    appState w /\
  idb (after (onDeleteClickReplied Rejected reload job true) w) = idb w.
Proof. destruct w. repeat split. Qed.



(** A drop that changes a status and whose [put] the store rejects: the
    status has been assigned in memory, the request has been sent, and
    the listener stops there. *)
Lemma onDropReplied_rejected jobId newStatus i job a s d r :
  first_at (has_id jobId) (AppState.jobs a) i job ->
  Job.status job <> newStatus ->
  onDropReplied Rejected jobId newStatus (world a s d r) =
    (Thrown RequestError,
     world (AppState.set_jobs
              (<[i := Job.set_status newStatus job]> (AppState.jobs a)) a)
           s d (r ++ [IDB.Put (Job.set_status newStatus job)])).
Proof.
  intros H Hne. unfold onDropReplied. rewrite bind_run.
  cbn [getAppState appState].
  pose proof (JSFacts.findIndex_first _ _ _ _ H) as E. unfold has_id in E.
  rewrite E. destruct H as (Hi & _).
  destruct (Z.ltb_spec (-1) (Z.of_nat i)); [|lia].
  rewrite Nat2Z.id, Hi.
  destruct (String.eqb_spec (Job.status job) newStatus); [contradiction|].
  reflexivity.
Qed.

(** In a well-keyed store a key stands for one record. *)
Lemma well_keyed_one_record s x y :
  well_keyed s -> x ∈ s -> y ∈ s -> Job.id x = Job.id y -> x = y.
Proof.
  induction 1 as [|r s Hs IH Hr]; intros Hx Hy E.
  - now apply elem_of_nil in Hx.
  - rewrite Forall_forall in Hr.
    apply elem_of_cons in Hx as [->|Hx]; apply elem_of_cons in Hy as [->|Hy].
    + reflexivity.
    + apply Hr, IDBFacts.key_lt_ne in Hy. contradiction.
    + apply Hr, IDBFacts.key_lt_ne in Hx. congruence.
    + now apply IH.
Qed.

Lemma first_at_id jobId (l : list Job.t) i job :
  l !! i = Some job -> Job.id job = jobId ->
  (forall k j, k < i -> l !! k = Some j -> Job.id j <> jobId) ->
  first_at (has_id jobId) l i job.
Proof.
  intros Hi Hid Hfirst. split; [assumption|]. split.
  - unfold has_id. rewrite Hid. apply String.eqb_refl.
  - intros k j Hk Hj. unfold has_id.
    destruct (String.eqb_spec (Job.id j) jobId); [|reflexivity].
    now apply (Hfirst k j Hk) in Hj.
Qed.

(** After it, the record with the new status is in memory and not in the
    store: memory no longer holds the records of the store. *)
Lemma onDropReplied_rejected_apart jobId newStatus i job w :
  first_at (has_id jobId) (AppState.jobs (appState w)) i job ->
  Job.status job <> newStatus ->
  let job' := Job.set_status newStatus job in
  let w' := after (onDropReplied Rejected jobId newStatus) w in
  outcome (onDropReplied Rejected jobId newStatus) w = Thrown RequestError /\
  AppState.jobs (appState w') = <[i := job']> (AppState.jobs (appState w)) /\
  idb w' = idb w /\
  requests w' = requests w ++ [IDB.Put job'] /\
  dom w' = dom w /\
  (well_keyed (idb w) ->
   AppState.jobs (appState w) ≡ₚ IDB.getAll (idb w) ->
   job' ∈ AppState.jobs (appState w') /\
   ~ job' ∈ IDB.getAll (idb w') /\
   ~ AppState.jobs (appState w') ≡ₚ IDB.getAll (idb w')).
Proof.
  intros Hat Hne job' w'. subst w' job'.
  destruct w as [a s d r]. unfold outcome, after.
  rewrite (onDropReplied_rejected _ _ _ _ _ _ _ _ Hat Hne).
  cbn [fst snd appState idb dom requests] in *.
  split; [reflexivity|]. split; [now destruct a|].
  split; [reflexivity|]. split; [reflexivity|]. split; [reflexivity|].
  intros Hk Hp. unfold IDB.getAll in *. destruct Hat as (Hi & _).
  assert (Hin : Job.set_status newStatus job ∈
                AppState.jobs (AppState.set_jobs
                  (<[i:=Job.set_status newStatus job]> (AppState.jobs a)) a)).
  { destruct a as [jobs v f dk]. cbn [AppState.jobs AppState.set_jobs] in *.
    apply (list_elem_of_lookup_2 _ i), list_lookup_insert_eq.
    now apply lookup_lt_Some in Hi. }
  assert (Hout : Job.set_status newStatus job ∉ s).
  { intros Hs. assert (Hjs : job ∈ s).
    { rewrite <- Hp. exact (list_elem_of_lookup_2 _ i _ Hi). }
    assert (E : Job.set_status newStatus job = job).
    { apply (well_keyed_one_record s); [exact Hk|exact Hs|exact Hjs|].
      now destruct job. }
    apply Hne. rewrite <- E. now destruct job. }
  split; [exact Hin|]. split; [exact Hout|].
  intros Hq. apply Hout. now rewrite <- Hq.
Qed.








(** C8.  A submission whose title field is empty does not reach
    [handleSaveJob]: the world, and with it the store and the requests
    sent to it, is as before.  With a title, the submission is
    [handleSaveJob], which puts the record built from the form. *)
Theorem submit_without_title_writes_nothing (uuid now : string) (w : World) :
  (Dom.job_title (Dom.job_form (dom w)) = "" ->
     outcome (onSubmit uuid now) w = Returned tt /\
     after (onSubmit uuid now) w = w) /\
  (Dom.job_title (Dom.job_form (dom w)) <> "" ->
     onSubmit uuid now w = handleSaveJob uuid now w /\
     requests (after (onSubmit uuid now) w) =
       requests w ++ [IDB.Put (job_of_form (Dom.job_form (dom w)) uuid now);
                      IDB.GetAll]).
Proof.
  unfold onSubmit, requiredFieldsFilled, outcome, after. rewrite bind_run.
  cbn [getDom]. split.
  - intros ->. split; reflexivity.
  - intros Hne. destruct (Dom.job_title (Dom.job_form (dom w))) eqn:E;
      [contradiction|]. cbn [JS.truthy]. split; [reflexivity|].
    exact (proj1 (handleSaveJob_leaves uuid now w)).
Qed.

End ReloadWritesSubmit.

Section Search.
Context {host : Host}.

Lemma passes_spec q j :
  passes q j = true <->
  q = "" \/ occurs_in q (JS.toLowerCase (Job.title j)) \/
  exists t, t ∈ Job.tags j /\ occurs_in q (JS.toLowerCase t).
Proof.
  unfold passes. destruct q as [|c q]; cbn [JS.truthy negb].
  - split; auto.
  - rewrite orb_true_iff, JSFacts.includes_spec, existsb_exists.
    split.
    + intros [H | (t & Ht & Hq)]; right; [now left | right].
      exists t. rewrite list_elem_of_In, <- JSFacts.includes_spec. auto.
    + intros [H | [H | (t & Ht & Hq)]]; [discriminate | now left | right].
      exists t. rewrite <- list_elem_of_In, JSFacts.includes_spec. auto.
Qed.



End Search.


(** C2 fails on the code: with a job of status "constructor" among the
    jobs given to [renderKanban], the call throws.  The card of the job
    before it is in its column, the job of status todo after it is in no
    column, and the counts are not written (they stay 0 while the done
    column holds a card). *)
Lemma kanban_throws_on_inherited_status :
  let d := dom (after (renderKanban Sample.board_jobs)
                      (Sample.start "kanban" [])) in
  outcome (renderKanban Sample.board_jobs) (Sample.start "kanban" []) =
    Thrown TypeError /\
  Dom.columns d = per_column [] [] [] [Sample.early] /\
  Dom.counts d = per_column 0 0 0 0.
Proof. split; [|split]; reflexivity. Qed.

(** C7 fails on the code: a job saved from the form at one time and
    dropped on the done column later is put in the store by the drop with
    the time of the form save still in [updatedAt]; the same change made
    through the form is stored with the time of that save. *)
Lemma drop_keeps_old_updatedAt :
  Job.updatedAt Sample.draft = "2024-05-01T09:00:00.000Z" /\
  idb (after (onDrop "a1" "done") Sample.board) =
    [Job.mk "a1" "Draft spec" "" "done" "high" "2024-06-01" ["writing"]
            "2024-05-01T09:00:00.000Z"] /\
  requests (after (onDrop "a1" "done") Sample.board) =
    [IDB.Put (Job.mk "a1" "Draft spec" "" "done" "high" "2024-06-01"
                ["writing"] "2024-05-01T09:00:00.000Z")] /\
  idb (after (handleSaveJob (host := Sample.host)
                "u1" "2024-05-02T10:00:00.000Z") Sample.board_editing) =
    [Job.mk "a1" "Draft spec" "" "done" "high" "2024-06-01" ["writing"]
            "2024-05-02T10:00:00.000Z"].
Proof. repeat split. Qed.

(** C4, as stated, fails on a store with one invalid due date: the
    reload leaves the store's three records as [getAll] returned them,
    the job due in March in front of the job due in January.  The order
    that is off is the order of two jobs with valid dates. *)
Lemma reload_with_an_invalid_date_misorders :
  let w := Sample.start "dashboard" undated_store in
  let jobs' :=
    AppState.jobs (appState (after (loadJobs (host := Sample.host)) w)) in
  jobs' = undated_store /\
  Sample.parse_date_only "" = None /\
  exists march january t1 t2,
    jobs' !! 0 = Some march /\ jobs' !! 2 = Some january /\
    Sample.parse_date_only (Job.dueDate march) = Some t1 /\
    Sample.parse_date_only (Job.dueDate january) = Some t2 /\
    (t2 < t1)%Z.
Proof.
  intros w jobs'. split; [reflexivity|]. split; [reflexivity|].
  eexists _, _, _, _. split; [reflexivity|]. split; [reflexivity|].
  split; [reflexivity|]. split; [reflexivity|]. reflexivity.
Qed.


(** ** The properties at sample data *)


Lemma delete_then_getAll_witness :
  Forall (fun r => Job.id r <> "zz") (idb (Sample.loaded "list")) /\
  outcome (db.deleteJob "zz") (Sample.loaded "list") = Returned tt /\
  idb (after (db.deleteJob "zz") (Sample.loaded "list")) =
    idb (Sample.loaded "list").
Proof.
  assert (H : Forall (fun r => Job.id r <> "zz") (idb (Sample.loaded "list")))
    by (simpl; repeat constructor; discriminate).
  split; [exact H|].
  exact (proj2 (proj2 (delete_then_getAll (host := Sample.host) "zz"
                         (Sample.loaded "list"))) H).
Defined.

Lemma drop_unknown_id_noop_witness :
  Forall (fun j => Job.id j <> "zz")
         (AppState.jobs (appState (Sample.loaded "kanban"))) /\
  outcome (onDrop "zz" "done") (Sample.loaded "kanban") = Returned tt /\
  after (onDrop "zz" "done") (Sample.loaded "kanban") = Sample.loaded "kanban".
Proof.
  assert (H : Forall (fun j => Job.id j <> "zz")
                (AppState.jobs (appState (Sample.loaded "kanban"))))
    by (simpl; repeat constructor; discriminate).
  split; [exact H|].
  exact (drop_unknown_id_noop "zz" "done" (Sample.loaded "kanban") H).
Defined.

Lemma drop_changes_one_status_witness :
  let w := Sample.loaded "kanban" in
  let w' := after (onDrop "a1" "done") w in
  AppState.jobs (appState w) !! 2 = Some Sample.draft /\
  Job.status Sample.draft <> "done" /\
  AppState.jobs (appState w') =
    [Sample.early; Sample.middle; Job.set_status "done" Sample.draft] /\
  idb w' = [Job.set_status "done" Sample.draft; Sample.early; Sample.middle] /\
  requests w' = [IDB.Put (Job.set_status "done" Sample.draft)].
Proof.
  intros w w'.
  assert (H1 : AppState.jobs (appState w) !! 2 = Some Sample.draft)
    by reflexivity.
  assert (H2 : Job.id Sample.draft = "a1") by reflexivity.
  assert (H3 : forall k j, k < 2 -> AppState.jobs (appState w) !! k = Some j ->
                           Job.id j <> "a1").
  { intros [|[|k]] j Hk Hj; simpl in Hj; try lia;
      injection Hj as <-; simpl; discriminate. }
  assert (H4 : Job.status Sample.draft <> "done") by (simpl; discriminate).
  destruct (drop_changes_one_status "a1" "done" 2 Sample.draft w H1 H2 H3)
    as (Hchange & _).
  destruct (Hchange H4) as (Hj & _ & _ & _ & _ & _ & Hs & Hr).
  split; [exact H1|]. split; [exact H4|].
  split; [exact Hj|]. split; [exact Hs | exact Hr].
Defined.

Lemma reload_sorts_dashboard_takes_five_witness :
  let w := Sample.start "dashboard" Sample.store in
  let jobs' := AppState.jobs (appState (after (loadJobs (host := Sample.host)) w)) in
  Forall (fun r => is_Some (Sample.parse_date_only (Job.dueDate r))) (idb w) /\
  jobs' = [Sample.early; Sample.middle; Sample.draft] /\
  StronglySorted (due_le (host := Sample.host)) jobs' /\
  Dom.recent_list (dom (after renderCurrentView Sample.dashboard_of_six)) =
    Dom.Items (take 5 Sample.six).
Proof.
  intros w jobs'.
  assert (H : Forall (fun r => is_Some (Sample.parse_date_only (Job.dueDate r)))
                (idb w))
    by (simpl; repeat constructor; vm_compute; eauto).
  destruct (reload_sorts_dashboard_takes_five (host := Sample.host) w)
    as ((_ & _ & Hsorted) & Hdash).
  split; [exact H|]. split; [reflexivity|]. split; [exact (Hsorted H)|].
  assert (Hv : AppState.view (appState Sample.dashboard_of_six) = "dashboard")
    by reflexivity.
  destruct (Hdash Sample.dashboard_of_six Hv) as (_ & _ & _ & Hfive & _).
  apply Hfive. simpl. discriminate.
Defined.


Lemma submit_without_title_writes_nothing_witness :
  let w := Sample.start "list" Sample.store in
  Dom.job_title (Dom.job_form (dom w)) = "" /\
  outcome (onSubmit (host := Sample.host) "u1" "2024-05-02T10:00:00.000Z") w =
    Returned tt /\
  after (onSubmit (host := Sample.host) "u1" "2024-05-02T10:00:00.000Z") w = w.
Proof.
  intros w.
  assert (H : Dom.job_title (Dom.job_form (dom w)) = "") by reflexivity.
  split; [exact H|].
  exact (proj1 (submit_without_title_writes_nothing (host := Sample.host)
                  "u1" "2024-05-02T10:00:00.000Z" w) H).
Defined.


(** * Further properties of the program *)

(** ** The kanban board, the counts and the renders *)

Section Board.
Context {host : Host}.

Lemma inherited_columns_at s :
  JS.inherited s = true -> columns_at s = Inherited.
Proof.
  intros H. unfold columns_at.
  destruct (String.eqb_spec s "todo") as [->|_]; [discriminate H|].
  destruct (String.eqb_spec s "in-progress") as [->|_]; [discriminate H|].
  destruct (String.eqb_spec s "review") as [->|_]; [discriminate H|].
  destruct (String.eqb_spec s "done") as [->|_]; [discriminate H|].
  now rewrite H.
Qed.

Lemma plain_statuses_dec jobs :
  plain_statuses jobs \/ ~ plain_statuses jobs.
Proof.
  unfold plain_statuses. induction jobs as [|j jobs IH].
  - left. constructor.
  - destruct (JS.inherited (Job.status j)) eqn:E.
    + right. intros H. inversion H; congruence.
    + destruct IH as [IH|IH]; [left; now constructor|].
      right. intros H. inversion H; contradiction.
Qed.


Lemma before_inherited_is_plain jobs : plain_statuses (before_inherited jobs).
Proof.
  induction jobs as [|j jobs IH]; simpl; [constructor|].
  destruct (JS.inherited (Job.status j)) eqn:E; [constructor|].
  now constructor.
Qed.

(** When some status names an inherited member, the loop throws with the
    cards of the jobs in front of the first such job in place. *)
Lemma fillColumns_throws jobs : forall counts a s d r,
  ~ plain_statuses jobs ->
  fillColumns jobs counts (world a s d r) =
    (Thrown TypeError,
     world a s
       (Dom.set_columns
          (per_column_zip (@List.app _) (Dom.columns d)
             (buckets (before_inherited jobs))) d) r).
Proof.
  induction jobs as [|job jobs IH]; intros counts a s d r Hn.
  - exfalso. apply Hn. constructor.
  - cbn [fillColumns before_inherited].
    destruct (JS.inherited (Job.status job)) eqn:Ei.
    + rewrite (inherited_columns_at _ Ei).
      destruct d as [? [] ? ? ? ? ?]. cbn. unfold per_column_zip. cbn.
      now rewrite !app_nil_r.
    + assert (Hn' : ~ plain_statuses jobs).
      { intros H. apply Hn. now constructor. }
      destruct (columns_at (Job.status job)) as [c| |] eqn:Hc.
      * rewrite bind_run. cbn [updDom appState idb dom requests].
        rewrite IH by assumption.
        unfold buckets. cbn [List.filter].
        destruct d as [? [] ? ? ? ? ?], c;
          rewrite (in_column_own job _ Hc),
                  !(in_column_other job _ _ Hc) by discriminate;
          cbn; unfold per_column_zip; cbn;
          rewrite <- ?app_assoc; reflexivity.
      * apply columns_at_inherited in Hc. congruence.
      * rewrite IH by assumption.
        unfold buckets. cbn [List.filter].
        rewrite !(in_column_undefined job Hc). reflexivity.
Qed.

Lemma renderKanban_throws jobs a s d r :
  ~ plain_statuses jobs ->
  renderKanban jobs (world a s d r) =
    (Thrown TypeError,
     world a s (Dom.set_columns (buckets (before_inherited jobs)) d) r).
Proof.
  intros Hn. unfold renderKanban.
  rewrite bind_run. cbn [updDom appState idb dom requests].
  rewrite bind_run, fillColumns_throws by assumption.
  destruct d. reflexivity.
Qed.


(** X2.  The three partial counts of [updateStats] never exceed the
    total together, and they add up to it exactly when every job in
    memory has one of the four statuses of the board. *)
Theorem summary_counts_add_up (w : World) :
  let t := Dom.summary (dom (after updateStats w)) in
  Dom.stat_active t + Dom.stat_completed t + Dom.stat_pending t
    <= Dom.stat_total t /\
  (Dom.stat_active t + Dom.stat_completed t + Dom.stat_pending t
     = Dom.stat_total t <->
   Forall known_status (AppState.jobs (appState w))).
Proof.
  destruct w as [a s d r]. intros t. subst t. unfold after.
  rewrite updateStats_run. cbn [snd dom]. 
  assert (E : forall x dd, Dom.summary (Dom.set_summary x dd) = x)
    by (intros x []; reflexivity).
  rewrite E. unfold summary_of. cbn [Dom.stat_active Dom.stat_completed
    Dom.stat_pending Dom.stat_total appState].
  induction (AppState.jobs a) as [|j l IH]; cbn [length].
  - rewrite !filter_nil. cbn [length].
    split; [lia|]. split; [constructor | reflexivity].
  - rewrite !filter_cons. destruct IH as [IHle IHeq].
    repeat case_decide; try (exfalso; intuition congruence); cbn [length];
      rewrite ?Forall_cons; unfold known_status at 1;
      (split; [lia|]); rewrite <- IHeq; intuition (try congruence; try lia).
Qed.

Lemma renderCurrentView_kanban_throws a s d r :
  AppState.view a = "kanban" ->
  ~ plain_statuses (filteredJobs a) ->
  renderCurrentView (world a s d r) =
    (Thrown TypeError,
     world a s
       (Dom.set_columns (buckets (before_inherited (filteredJobs a))) d) r).
Proof.
  intros Hv Hn. rewrite renderCurrentView_run. unfold renderView.
  cbn [appState]. rewrite Hv. cbn [String.eqb Ascii.eqb Bool.eqb].
  now rewrite renderKanban_throws.
Qed.

Lemma renderCurrentView_no_view a s d r :
  AppState.view a <> "dashboard" -> AppState.view a <> "kanban" ->
  AppState.view a <> "list" ->
  renderCurrentView (world a s d r) =
    (Returned tt,
     world a s (Dom.set_summary (summary_of (AppState.jobs a)) d) r).
Proof.
  intros H1 H2 H3. rewrite renderCurrentView_run. unfold renderView.
  cbn [appState].
  destruct (String.eqb_spec (AppState.view a) "dashboard"); [contradiction|].
  destruct (String.eqb_spec (AppState.view a) "kanban"); [contradiction|].
  destruct (String.eqb_spec (AppState.view a) "list"); [contradiction|].
  change ((mret tt : M unit) (world a s d r)) with (Returned tt, world a s d r).
  cbv beta iota. now rewrite updateStats_run.
Qed.

(** X3.  Rendering again changes nothing: a second [renderCurrentView]
    right after the first has the outcome of the first and leaves the
    world the first left.  No card, row or item is ever shown twice. *)
Theorem render_again_changes_nothing (w : World) :
  renderCurrentView (after renderCurrentView w) = renderCurrentView w.
Proof.
  destruct w as [a s d r]. unfold after.
  destruct (String.eqb_spec (AppState.view a) "dashboard") as [Hd|Hd].
  { rewrite !(renderCurrentView_dashboard _ _ _ _ Hd). cbn [snd].
    rewrite (renderCurrentView_dashboard _ _ _ _ Hd). now destruct d. }
  destruct (String.eqb_spec (AppState.view a) "kanban") as [Hk|Hk].
  { destruct (plain_statuses_dec (filteredJobs a)) as [Hp|Hn].
    - rewrite !(renderCurrentView_kanban _ _ _ _ Hk Hp). cbn [snd].
      rewrite (renderCurrentView_kanban _ _ _ _ Hk Hp). now destruct d.
    - rewrite !(renderCurrentView_kanban_throws _ _ _ _ Hk Hn). cbn [snd].
      rewrite (renderCurrentView_kanban_throws _ _ _ _ Hk Hn). now destruct d. }
  destruct (String.eqb_spec (AppState.view a) "list") as [Hl|Hl].
  { rewrite !(renderCurrentView_list _ _ _ _ Hl). cbn [snd].
    rewrite (renderCurrentView_list _ _ _ _ Hl). now destruct d. }
  rewrite !(renderCurrentView_no_view _ _ _ _ Hd Hk Hl). cbn [snd].
  rewrite (renderCurrentView_no_view _ _ _ _ Hd Hk Hl). now destruct d.
Qed.


End Board.

(** ** The search box *)

Section SearchBox.
Context {host : Host}.


Lemma string_app_assoc (a b c : string) :
  ((a ++ b) ++ c = a ++ (b ++ c))%string.
Proof.
  induction a as [|x a IH]; [reflexivity|].
  change (String x ((a ++ b) ++ c)%string = String x (a ++ (b ++ c))%string).
  now rewrite IH.
Qed.


Lemma occurs_in_trans a b c : occurs_in a b -> occurs_in b c -> occurs_in a c.
Proof.
  intros (x & y & ->) (x' & y' & ->). exists (x' ++ x)%string, (y ++ y')%string.
  now rewrite !string_app_assoc.
Qed.

Lemma occurs_in_empty q : occurs_in q "" -> q = "".
Proof.
  intros (x & y & H). destruct x; [|discriminate H].
  destruct q; [reflexivity | discriminate H].
Qed.

(** A job that passes a query passes every query that occurs in it. *)
Lemma passes_wider q q' j :
  occurs_in q q' -> passes q' j = true -> passes q j = true.
Proof.
  intros Hq. rewrite !passes_spec. intros [E | [H | (t & Ht & H)]].
  - left. subst q'. now apply occurs_in_empty.
  - right. left. eapply occurs_in_trans; eauto.
  - right. right. exists t. split; [assumption|]. eapply occurs_in_trans; eauto.
Qed.

Lemma filter_sublist_impl {A} (p q : A -> bool) (l : list A) :
  (forall x, p x = true -> q x = true) ->
  List.filter p l `sublist_of` List.filter q l.
Proof.
  intros Hpq. induction l as [|x l IH]; simpl; [constructor|].
  destruct (p x) eqn:Hp.
  - rewrite (Hpq x Hp). now constructor.
  - destruct (q x); [now constructor | assumption].
Qed.

Lemma onSearchInput_state value w :
  appState (after (onSearchInput value) w) =
    AppState.set_filter (JS.toLowerCase value) (appState w).
Proof.
  destruct w as [a s d r]. unfold after, onSearchInput.
  rewrite bind_run. cbn [updAppState appState idb dom requests].
  match goal with |- context [renderCurrentView ?v] =>
    pose proof (document_only_renderCurrentView v) as (Ha & _) end.
  exact Ha.
Qed.

(** X5.  Typing on narrows the result.  When the lower-case form of the
    text typed first occurs in the lower-case form of the text typed
    later, the jobs that pass the filter after the later text are among
    those that pass it after the earlier one, in the same order. *)
Theorem typing_on_narrows_the_result (value later : string) (w : World) :
  occurs_in (JS.toLowerCase value) (JS.toLowerCase later) ->
  filteredJobs (appState (after (onSearchInput later) w))
    `sublist_of`
  filteredJobs (appState (after (onSearchInput value) w)).
Proof.
  intros Hq. rewrite !onSearchInput_state. unfold filteredJobs.
  destruct (appState w) as [jobs v f dk]. cbn.
  apply filter_sublist_impl. intros j. now apply passes_wider.
Qed.


End SearchBox.

(** ** The tags and the form *)

Section Tags.
Context {host : Host}.

Lemma put_holds job s : job ∈ IDB.put job s.
Proof.
  induction s as [|h t IH]; cbn [IDB.put].
  - now left.
  - destruct (String.compare (Job.id job) (Job.id h));
      [now left | now left | now right].
Qed.

Lemma trimEnd_cons c s :
  JS.trimEnd (String c s) =
    match JS.trimEnd s with
    | EmptyString => if JS.is_white c then EmptyString else String c EmptyString
    | r => String c r
    end.
Proof. reflexivity. Qed.

Lemma trimEnd_idem s : JS.trimEnd (JS.trimEnd s) = JS.trimEnd s.
Proof.
  induction s as [|c s IH]; [reflexivity|].
  rewrite trimEnd_cons. destruct (JS.trimEnd s) as [|d r] eqn:E.
  - destruct (JS.is_white c) eqn:W; [reflexivity|].
    rewrite trimEnd_cons. cbn [JS.trimEnd]. now rewrite W.
  - rewrite trimEnd_cons, IH. reflexivity.
Qed.

Lemma trimEnd_keeps_head c s :
  JS.is_white c = false -> exists r, JS.trimEnd (String c s) = String c r.
Proof.
  intros W. rewrite trimEnd_cons. destruct (JS.trimEnd s); [rewrite W|]; eauto.
Qed.

Lemma trimStart_head s :
  JS.trimStart s = "" \/
  exists c r, JS.trimStart s = String c r /\ JS.is_white c = false.
Proof.
  induction s as [|c s IH]; [now left|].
  cbn [JS.trimStart]. destruct (JS.is_white c) eqn:W; [exact IH|].
  right. eauto.
Qed.

Lemma trim_idem s : JS.trim (JS.trim s) = JS.trim s.
Proof.
  unfold JS.trim. destruct (trimStart_head s) as [E | (c & r & E & W)];
    rewrite E; [reflexivity|].
  destruct (trimEnd_keeps_head c r W) as (r' & E').
  rewrite E'. cbn [JS.trimStart]. rewrite W, <- E'. apply trimEnd_idem.
Qed.

Lemma trimStart_chars x s :
  In x (list_ascii_of_string (JS.trimStart s)) -> In x (list_ascii_of_string s).
Proof.
  induction s as [|c s IH]; [auto|].
  cbn [JS.trimStart]. destruct (JS.is_white c); [|auto].
  intros H. right. auto.
Qed.

Lemma trimEnd_chars x s :
  In x (list_ascii_of_string (JS.trimEnd s)) -> In x (list_ascii_of_string s).
Proof.
  induction s as [|c s IH]; [auto|].
  rewrite trimEnd_cons. destruct (JS.trimEnd s) as [|d r].
  - destruct (JS.is_white c); [intros []|].
    intros [H|[]]. now left.
  - intros [H|H]; [now left|]. right. auto.
Qed.

Lemma trim_chars x s :
  In x (list_ascii_of_string (JS.trim s)) -> In x (list_ascii_of_string s).
Proof. intros H. now apply trimStart_chars, trimEnd_chars. Qed.

Lemma split_comma_not_nil s : JS.split_comma s <> [].
Proof.
  destruct s as [|c s]; [discriminate|]. cbn [JS.split_comma].
  destruct (Ascii.eqb c ","); [discriminate|].
  destruct (JS.split_comma s); discriminate.
Qed.

Lemma split_comma_pieces s p :
  In p (JS.split_comma s) -> ~ In ","%char (list_ascii_of_string p).
Proof.
  revert p; induction s as [|c s IH]; intros p.
  - intros [<-|[]] [].
  - cbn [JS.split_comma]. destruct (Ascii.eqb_spec c ",") as [->|Hc].
    + intros [<-|H]; [intros []|auto].
    + destruct (JS.split_comma s) as [|h t] eqn:E.
      * intros [<-|[]] [H|[]]. congruence.
      * intros [<-|H].
        -- intros [H|H]; [congruence|]. apply (IH h); [now left | exact H].
        -- apply IH. now right.
Qed.

Lemma parseTags_elem input t :
  In t (parseTags input) ->
  t <> "" /\ exists p, In p (JS.split_comma input) /\ t = JS.trim p.
Proof.
  unfold parseTags. rewrite filter_In, in_map_iff.
  intros ((p & <- & Hp) & Ht). split; [|eauto].
  intros E. rewrite E in Ht. discriminate.
Qed.

Lemma job_of_form_tags_clean uuid now f :
  Forall clean_tag (Job.tags (job_of_form f uuid now)).
Proof.
  rewrite Forall_forall. intros t Ht. rewrite list_elem_of_In in Ht.
  change (In t (parseTags (Dom.job_tags f))) in Ht.
  apply parseTags_elem in Ht as (Hne & p & Hp & ->).
  split; [exact Hne|]. split; [apply trim_idem|].
  intros H. apply trim_chars in H. now apply (split_comma_pieces _ _ Hp).
Qed.

(** X7.  Whatever is typed in the tags field, every tag of the record
    that [handleSaveJob] puts in the store is clean: it is not empty, has
    no white space at either end, and has no comma in it. *)
Theorem stored_tags_are_clean (uuid now : string) (w : World) :
  exists job,
    requests (after (handleSaveJob uuid now) w) =
      requests w ++ [IDB.Put job; IDB.GetAll] /\
    job ∈ idb (after (handleSaveJob uuid now) w) /\
    Forall clean_tag (Job.tags job).
Proof.
  exists (job_of_form (Dom.job_form (dom w)) uuid now).
  destruct (handleSaveJob_leaves uuid now w) as (Hr & Hs & _).
  split; [exact Hr|]. split; [|apply job_of_form_tags_clean].
  rewrite Hs. apply put_holds.
Qed.

Lemma split_comma_plain s :
  ~ In ","%char (list_ascii_of_string s) -> JS.split_comma s = [s].
Proof.
  induction s as [|c s IH]; [reflexivity|]. intros H.
  cbn [JS.split_comma]. destruct (Ascii.eqb_spec c ",") as [->|Hc].
  - exfalso. apply H. now left.
  - rewrite IH; [reflexivity|]. intros Hs. apply H. now right.
Qed.

Lemma split_comma_app x rest :
  ~ In ","%char (list_ascii_of_string x) ->
  JS.split_comma (x ++ String "," rest) = x :: JS.split_comma rest.
Proof.
  induction x as [|c x IH]; intros H.
  - reflexivity.
  - change (JS.split_comma (String c (x ++ String "," rest)) =
            String c x :: JS.split_comma rest).
    cbn [JS.split_comma]. destruct (Ascii.eqb_spec c ",") as [->|Hc].
    + exfalso. apply H. now left.
    + rewrite IH; [reflexivity|]. intros Hs. apply H. now right.
Qed.

Lemma parseTags_space s : parseTags (String " " s) = parseTags s.
Proof.
  unfold parseTags. cbn [JS.split_comma].
  change (Ascii.eqb " " ",") with false. cbv iota.
  destruct (JS.split_comma s) as [|h t] eqn:E;
    [now apply split_comma_not_nil in E|].
  reflexivity.
Qed.

Lemma parseTags_join tags :
  Forall clean_tag tags -> parseTags (join_comma_space tags) = tags.
Proof.
  induction 1 as [|x r (Hne & Htrim & Hcomma) Hr IH]; [reflexivity|].
  assert (Htruthy : JS.truthy x = true) by (destruct x; [contradiction | reflexivity]).
  destruct r as [|y r'].
  - cbn [join_comma_space]. unfold parseTags.
    rewrite split_comma_plain by assumption. cbn. now rewrite Htrim, Htruthy.
  - change (join_comma_space (x :: y :: r')) with
      (x ++ String "," (String " " (join_comma_space (y :: r'))))%string.
    unfold parseTags. rewrite split_comma_app by assumption.
    cbn [map List.filter]. rewrite Htrim, Htruthy. f_equal.
    change (parseTags (String " " (join_comma_space (y :: r'))) = y :: r').
    rewrite parseTags_space. exact IH.
Qed.

(** X8.  The tags field round-trips: the text [openModal] writes for a
    list of clean tags (the tags joined by a comma and a space) is read
    back by [handleSaveJob] as the same list.  So reading is settled after
    one pass: what is read from any text, written back and read again, is
    what was read the first time. *)
Theorem tags_field_round_trip (tags : list string) :
  (Forall clean_tag tags -> parseTags (join_comma_space tags) = tags) /\
  (forall input,
     parseTags (join_comma_space (parseTags input)) = parseTags input).
Proof.
  split; [apply parseTags_join|].
  intros input. apply parseTags_join.
  exact (job_of_form_tags_clean "" ""
           (Dom.form "" "" "" "" "" "" input)).
Qed.

Lemma job_of_form_of_job job uuid now :
  JS.truthy (Job.id job) = true -> Forall clean_tag (Job.tags job) ->
  job_of_form (form_of_job job) uuid now = set_updatedAt now job.
Proof.
  intros Hid Htags. unfold job_of_form, form_of_job, set_updatedAt.
  cbn [Dom.job_id Dom.job_title Dom.job_desc Dom.job_status Dom.job_priority
       Dom.job_date Dom.job_tags].
  rewrite Hid. f_equal. now apply parseTags_join.
Qed.

(** X9.  Editing without a change keeps the record: for a job that the
    form saved (under a non-empty id), when the form holds what
    [openModal] assigns for that job, [handleSaveJob] puts the same
    record with [updatedAt] set to the time of the save, under the same
    id, and does not use the fresh uuid. *)
Theorem edit_unchanged_keeps_record
  (f0 : Dom.Form) (uuid0 now0 uuid now : string) (w : World) :
  let job := job_of_form f0 uuid0 now0 in
  JS.truthy uuid0 = true ->
  Dom.job_form (dom w) = form_of_job job ->
  let w' := after (handleSaveJob uuid now) w in
  job_of_form (form_of_job job) uuid now = set_updatedAt now job /\
  idb w' = IDB.put (set_updatedAt now job) (idb w) /\
  requests w' = requests w ++ [IDB.Put (set_updatedAt now job); IDB.GetAll].
Proof.
  intros job Hu Hform w'.
  assert (Hid : JS.truthy (Job.id job) = true).
  { subst job. unfold job_of_form. cbn [Job.id].
    destruct (JS.truthy (Dom.job_id f0)) eqn:E; [exact E | exact Hu]. }
  assert (E : job_of_form (form_of_job job) uuid now = set_updatedAt now job).
  { apply job_of_form_of_job; [exact Hid|]. apply job_of_form_tags_clean. }
  destruct (handleSaveJob_leaves uuid now w) as (Hr & Hs & _).
  rewrite Hform, E in Hr, Hs. auto.
Qed.

End Tags.

(** ** Saving and the store *)

Section Saving.
Context {host : Host}.

Lemma put_spec job s r :
  well_keyed s ->
  r ∈ IDB.put job s <-> r = job \/ (r ∈ s /\ Job.id r <> Job.id job).
Proof.
  induction 1 as [|h t Ht IH Hh]; cbn [IDB.put].
  - rewrite list_elem_of_singleton. split; [auto|].
    intros [H|[H _]]; [exact H | inversion H].
  - assert (Hfar : forall x, x ∈ t -> Job.id x <> Job.id h).
    { rewrite Forall_forall in Hh. intros x Hx E.
      apply Hh, IDBFacts.key_lt_ne in Hx. congruence. }
    rewrite Forall_forall in Hh.
    destruct (String.compare (Job.id job) (Job.id h)) eqn:E.
    + apply IDBFacts.compare_eq in E. rewrite !elem_of_cons, E. split.
      * intros [H|H]; [now left | right]. split; [now right | now apply Hfar].
      * intros [H|[[H|H] Hne]]; [now left | congruence | now right].
    + rewrite !elem_of_cons. split.
      * intros [H|[H|H]]; [now left | |]; right.
        -- subst r. split; [now left|]. intros E'. rewrite E' in E.
           rewrite IDBFacts.compare_refl in E. discriminate.
        -- split; [now right|]. intros E'. apply Hh in H. unfold key_lt in H.
           rewrite E' in H.
           pose proof (IDBFacts.compare_lt_trans _ _ _ E H) as C.
           rewrite IDBFacts.compare_refl in C. discriminate.
      * intros [H|[[H|H] _]]; auto.
    + rewrite !elem_of_cons, IH. split.
      * intros [H|[H|[H Hne]]]; [right | now left | right].
        -- subst r. split; [now left|]. intros E'. rewrite E' in E.
           rewrite IDBFacts.compare_refl in E. discriminate.
        -- split; [now right | assumption].
      * intros [H|[[H|H] Hne]]; [right; now left | now left | right; right; auto].
Qed.

Lemma put_idem job s : IDB.put job (IDB.put job s) = IDB.put job s.
Proof.
  induction s as [|h t IH]; cbn [IDB.put].
  - now rewrite IDBFacts.compare_refl.
  - destruct (String.compare (Job.id job) (Job.id h)) eqn:E; cbn [IDB.put].
    + now rewrite IDBFacts.compare_refl.
    + now rewrite IDBFacts.compare_refl.
    + now rewrite E, IH.
Qed.

Lemma delete_put job s :
  IDB.delete (Job.id job) (IDB.put job s) = IDB.delete (Job.id job) s.
Proof.
  unfold IDB.delete. induction s as [|h t IH]; cbn [IDB.put List.filter].
  - now rewrite String.eqb_refl.
  - destruct (String.compare (Job.id job) (Job.id h)) eqn:E; cbn [List.filter].
    + apply IDBFacts.compare_eq in E. rewrite <- E, String.eqb_refl. reflexivity.
    + now rewrite String.eqb_refl.
    + now rewrite IH.
Qed.

Lemma put_length_fresh job s :
  Forall (fun r => Job.id r <> Job.id job) s ->
  length (IDB.put job s) = S (length s).
Proof.
  induction 1 as [|h t Hh Ht IH]; cbn [IDB.put]; [reflexivity|].
  destruct (String.compare (Job.id job) (Job.id h)) eqn:E; cbn [length].
  - apply IDBFacts.compare_eq in E. congruence.
  - reflexivity.
  - now rewrite IH.
Qed.

Lemma put_length_present job s :
  well_keyed s -> (exists r, r ∈ s /\ Job.id r = Job.id job) ->
  length (IDB.put job s) = length s.
Proof.
  induction 1 as [|h t Ht IH Hh]; intros (r & Hr & Hid); [inversion Hr|].
  cbn [IDB.put]. rewrite Forall_forall in Hh.
  destruct (String.compare (Job.id job) (Job.id h)) eqn:E; cbn [length].
  - reflexivity.
  - exfalso. apply elem_of_cons in Hr as [->|Hr].
    + rewrite Hid, IDBFacts.compare_refl in E. discriminate.
    + apply Hh in Hr. unfold key_lt in Hr. rewrite Hid in Hr.
      pose proof (IDBFacts.compare_lt_trans _ _ _ E Hr) as C.
      rewrite IDBFacts.compare_refl in C. discriminate.
  - f_equal. apply IH. apply elem_of_cons in Hr as [->|Hr]; [|eauto].
    rewrite Hid, IDBFacts.compare_refl in E. discriminate.
Qed.

(** X11.  On a well-keyed store, [addJob] followed by [getAllJobs]
    returns the record put and every stored record of another id, and
    nothing else, in key order; putting the same record twice is putting
    it once; and deleting the id after the put leaves what deleting it
    from the store before the put would have left, which is the store
    itself when it had no record of that id. *)
Theorem addJob_then_getAll (job : Job.t) (w : World) :
  well_keyed (idb w) ->
  (outcome (db.addJob job ;; db.getAllJobs) w =
     Returned (IDB.put job (idb w)) /\
   (forall r, r ∈ IDB.put job (idb w) <->
              r = job \/ (r ∈ idb w /\ Job.id r <> Job.id job)) /\
   well_keyed (IDB.put job (idb w))) /\
  idb (after (db.addJob job ;; db.addJob job) w) =
    idb (after (db.addJob job) w) /\
  idb (after (db.addJob job ;; db.deleteJob (Job.id job)) w) =
    idb (after (db.deleteJob (Job.id job)) w) /\
  (Forall (fun r => Job.id r <> Job.id job) (idb w) ->
   idb (after (db.addJob job ;; db.deleteJob (Job.id job)) w) = idb w).
Proof.
  intros Hk. split; [split; [reflexivity|split]|split; [|split]].
  - intros r. now apply put_spec.
  - now apply IDBFacts.put_well_keyed.
  - exact (put_idem job (idb w)).
  - exact (delete_put job (idb w)).
  - intros Hfresh. transitivity (IDB.delete (Job.id job) (idb w));
      [exact (delete_put job (idb w)) | now apply IDBFacts.delete_absent].
Qed.

Lemma renderCurrentView_keeps_form w :
  Dom.job_form (dom (after renderCurrentView w)) = Dom.job_form (dom w) /\
  Dom.modal_open (dom (after renderCurrentView w)) = Dom.modal_open (dom w).
Proof.
  destruct w as [a s d r]. unfold after.
  destruct (String.eqb_spec (AppState.view a) "dashboard") as [Hd|Hd].
  { rewrite (renderCurrentView_dashboard _ _ _ _ Hd). now destruct d. }
  destruct (String.eqb_spec (AppState.view a) "kanban") as [Hk|Hk].
  { destruct (plain_statuses_dec (filteredJobs a)) as [Hp|Hn].
    - rewrite (renderCurrentView_kanban _ _ _ _ Hk Hp). now destruct d.
    - rewrite (renderCurrentView_kanban_throws _ _ _ _ Hk Hn). now destruct d. }
  destruct (String.eqb_spec (AppState.view a) "list") as [Hl|Hl].
  { rewrite (renderCurrentView_list _ _ _ _ Hl). now destruct d. }
  rewrite (renderCurrentView_no_view _ _ _ _ Hd Hk Hl). now destruct d.
Qed.

(** X10.  [handleSaveJob] upserts.  The record it builds has the id of
    the form's id field, or the fresh uuid when that field is empty.  On
    a well-keyed store, the store afterwards holds that record and every
    record of another id it held, and nothing else; it has one record
    more when the id is new; memory holds the same records.  The record
    is stored whether or not the render that follows throws; the form is
    closed when the handler returns and is left as it was when it
    throws. *)
Theorem save_upserts (uuid now : string) (w : World) :
  let job := job_of_form (Dom.job_form (dom w)) uuid now in
  let w' := after (handleSaveJob uuid now) w in
  (Dom.job_id (Dom.job_form (dom w)) = "" -> Job.id job = uuid) /\
  (Dom.job_id (Dom.job_form (dom w)) <> "" ->
     Job.id job = Dom.job_id (Dom.job_form (dom w))) /\
  (well_keyed (idb w) ->
     (forall r, r ∈ idb w' <->
                r = job \/ (r ∈ idb w /\ Job.id r <> Job.id job)) /\
     AppState.jobs (appState w') ≡ₚ idb w' /\
     (Forall (fun r => Job.id r <> Job.id job) (idb w) ->
      length (idb w') = S (length (idb w))) /\
     ((exists r, r ∈ idb w /\ Job.id r = Job.id job) ->
      length (idb w') = length (idb w))) /\
  (outcome (handleSaveJob uuid now) w = Returned tt ->
     Dom.modal_open (dom w') = false) /\
  (outcome (handleSaveJob uuid now) w <> Returned tt ->
     Dom.modal_open (dom w') = Dom.modal_open (dom w) /\
     job ∈ idb w').
Proof.
  intros job w'.
  destruct (handleSaveJob_leaves uuid now w) as (Hr & Hs & Ha).
  fold job in Hr, Hs, Ha. fold w' in Hr, Hs, Ha.
  split; [|split; [|split; [|split]]].
  - intros E. subst job. unfold job_of_form. cbn [Job.id]. now rewrite E.
  - intros E. subst job. unfold job_of_form. cbn [Job.id].
    destruct (Dom.job_id (Dom.job_form (dom w))); [contradiction | reflexivity].
  - intros Hk. rewrite Hs, Ha. split; [|split; [|split]].
    + intros r. now apply put_spec.
    + apply JSFacts.sort_perm.
    + apply put_length_fresh.
    + now apply put_length_present.
  - subst w'. destruct w as [a s d r]. unfold outcome, after.
    rewrite handleSaveJob_run. rewrite bind_run.
    match goal with |- context [renderCurrentView ?v] =>
      destruct (renderCurrentView v) as [[[]|e] [a1 s1 d1 r1]] end.
    + intros _. now destruct d1.
    + discriminate.
  - intros Hthrow. split.
    + clear Hr Hs Ha. subst w'. destruct w as [a s d r]. unfold outcome, after in *.
      rewrite handleSaveJob_run in *. rewrite bind_run in *.
      match goal with |- context [renderCurrentView ?v] =>
        pose proof (renderCurrentView_keeps_form v) as (_ & Hm);
        unfold after in Hm;
        destruct (renderCurrentView v) as [[[]|e] [a1 s1 d1 r1]] end.
      * exfalso. apply Hthrow. reflexivity.
      * exact Hm.
    + rewrite Hs. apply put_holds.
Qed.

End Saving.

(** ** Order in memory, delete, drop and start *)

Section Order.
Context {host : Host}.

(** An element that comes after none of a list is put in front of it. *)
Lemma sort_insert_front {A} (cmp : A -> A -> option Z) x l :
  Forall (fun y => JS.comes_after (cmp x y) = false) l ->
  JS.sort_insert cmp x l = x :: l.
Proof.
  destruct 1 as [|y l Hy _]; [reflexivity|]. cbn [JS.sort_insert].
  now rewrite Hy.
Qed.

Lemma sort_insert_drop {A} (cmp : A -> A -> option Z) (p : A -> bool) x l :
  p x = false ->
  List.filter p (JS.sort_insert cmp x l) = List.filter p l.
Proof.
  intros Hx. induction l as [|y l IH]; cbn [JS.sort_insert List.filter].
  - now rewrite Hx.
  - destruct (JS.comes_after (cmp x y)); cbn [List.filter].
    + now rewrite IH.
    + now rewrite Hx.
Qed.

Section Keys.
Context {A : Type} (key : A -> option Z).

Lemma key_le_not_after x y :
  key_le key x y -> JS.comes_after (by_key key x y) = false.
Proof.
  intros (kx & ky & Hx & Hy & Hle). unfold by_key. rewrite Hx, Hy. cbn.
  apply Z.ltb_ge. lia.
Qed.

Lemma key_le_trans x y z : key_le key x y -> key_le key y z -> key_le key x z.
Proof.
  intros (a & b & Ha & Hb & H1) (b' & c & Hb' & Hc & H2).
  rewrite Hb in Hb'. injection Hb' as <-. exists a, c. repeat split; auto. lia.
Qed.

Lemma sort_insert_filter (p : A -> bool) x l :
  is_Some (key x) -> Forall (fun a => is_Some (key a)) l ->
  StronglySorted (key_le key) l -> p x = true ->
  List.filter p (JS.sort_insert (by_key key) x l) =
    JS.sort_insert (by_key key) x (List.filter p l).
Proof.
  intros [kx Hx] Hall Hs Hp. induction Hs as [|y l Hs IH Hy]; cbn [JS.sort_insert List.filter].
  - now rewrite Hp.
  - inversion Hall as [|? ? [ky Hky] Hall']; subst.
    destruct (JS.comes_after (by_key key x y)) eqn:E; cbn [List.filter].
    + rewrite IH by assumption. destruct (p y); [|reflexivity].
      cbn [JS.sort_insert]. now rewrite E.
    + rewrite Hp. symmetry. apply sort_insert_front.
      assert (Hxy : key_le key x y).
      { exists kx, ky. repeat split; auto. unfold by_key in E.
        rewrite Hx, Hky in E. cbn in E. apply Z.ltb_ge in E. lia. }
      destruct (p y).
      * constructor; [now apply key_le_not_after|].
        rewrite Forall_forall in *. intros z Hz. apply key_le_not_after.
        apply (key_le_trans x y z Hxy). apply Hy.
        rewrite list_elem_of_In in *. now apply filter_In in Hz.
      * rewrite Forall_forall in *. intros z Hz. apply key_le_not_after.
        apply (key_le_trans x y z Hxy). apply Hy.
        rewrite list_elem_of_In in *. now apply filter_In in Hz.
Qed.

(** With every key there, sorting what a test keeps is keeping what the
    test keeps of the sorted list. *)
Lemma sort_filter (p : A -> bool) l :
  Forall (fun a => is_Some (key a)) l ->
  JS.sort (by_key key) (List.filter p l) =
    List.filter p (JS.sort (by_key key) l).
Proof.
  induction 1 as [|x l Hx Hall IH]; [reflexivity|].
  cbn [List.filter JS.sort]. destruct (p x) eqn:Hp.
  - cbn [JS.sort]. rewrite IH. symmetry. apply sort_insert_filter; auto.
    + now rewrite JSFacts.sort_perm.
    + now apply JSFacts.sort_sorted.
  - rewrite IH. symmetry. now apply sort_insert_drop.
Qed.

(** Elements of one key keep their order. *)
Lemma sort_insert_same_key k x l :
  let same a := match key a with Some t => Z.eqb t k | None => false end in
  same x = true ->
  List.filter same (JS.sort_insert (by_key key) x l) = x :: List.filter same l.
Proof.
  intros same Hx. induction l as [|y l IH]; cbn [JS.sort_insert List.filter].
  - now rewrite Hx.
  - destruct (JS.comes_after (by_key key x y)) eqn:E; cbn [List.filter].
    + rewrite IH. subst same. cbn beta in *. unfold by_key in E.
      destruct (key x) as [kx|]; [|discriminate].
      destruct (key y) as [ky|]; [|reflexivity]. cbn in E.
      apply Z.eqb_eq in Hx. apply Z.ltb_lt in E.
      destruct (Z.eqb_spec ky k); [lia | reflexivity].
    + now rewrite Hx.
Qed.

Lemma sort_same_key k l :
  let same a := match key a with Some t => Z.eqb t k | None => false end in
  List.filter same (JS.sort (by_key key) l) = List.filter same l.
Proof.
  intros same. induction l as [|x l IH]; [reflexivity|].
  cbn [JS.sort List.filter]. destruct (same x) eqn:Hx.
  - rewrite (sort_insert_same_key k x _ Hx). fold same. now rewrite IH.
  - rewrite sort_insert_drop by assumption. exact IH.
Qed.
End Keys.

(** X14.  When every stored due date is a valid date, [loadJobs] keeps
    ties in the order of the store: for every time, the jobs due at that
    time are in memory in the order in which [getAll] returned them (the
    order of their keys). *)
Theorem reload_keeps_ties_in_key_order (k : Z) (w : World) :
  valid_dates (idb w) ->
  List.filter (due_at host k) (AppState.jobs (appState (after loadJobs w))) =
  List.filter (due_at host k) (IDB.getAll (idb w)).
Proof.
  intros _. destruct w as [a s d r]. unfold after. rewrite loadJobs_run.
  cbn [snd appState AppState.jobs AppState.set_jobs idb IDB.getAll].
  exact (sort_same_key dueTime k s).
Qed.

(** X12.  A confirmed delete takes the jobs of that id out of memory and
    leaves the others where they are: when memory was the store's content
    in the order of [loadJobs] and every stored due date is valid, the
    collection afterwards is the one before without the jobs of the
    deleted id, in the same order. *)
Theorem delete_takes_job_out_of_memory (job : Job.t) (w : World) :
  in_sync w ->
  Forall (fun r => is_Some (Date_parse (Job.dueDate r))) (idb w) ->
  AppState.jobs (appState (after (onDeleteClick job true) w)) =
    List.filter (fun r => negb (String.eqb (Job.id r) (Job.id job)))
                (AppState.jobs (appState w)).
Proof.
  intros Hs Hvalid. destruct (onDeleteClick_leaves job w) as (_ & _ & Ha).
  rewrite Ha, Hs. unfold IDB.delete, IDB.getAll.
  exact (sort_filter dueTime _ (idb w) Hvalid).
Qed.






Lemma passes_empty j : passes "" j = true.
Proof. reflexivity. Qed.

Lemma filter_all {A} (p : A -> bool) l :
  (forall x, p x = true) -> List.filter p l = l.
Proof.
  intros H. induction l as [|x l IH]; cbn; [reflexivity|]. now rewrite H, IH.
Qed.

(** X15.  The start of the application.  From the initial [AppState],
    when the database opens and answers the [getAll], [initApp] shows no
    alert, whatever the store holds: it sends that one request, leaves
    the store as it is and memory with the records of the store (in
    ascending order of due date when every stored due date is valid),
    the view and the filter as they were, shows on the dashboard the
    first five of the jobs in memory (the empty-state message when there
    is none) and writes the summary of all of them.  When the [getAll] is
    rejected it alerts, with memory, store and document as they were.
    When the database does not open, it alerts and leaves the world as it
    is, no request sent. *)
Theorem start_loads_and_shows_dashboard (w : World) :
  appState w = initialAppState ->
  (let w' := after (initApp true Fulfilled) w in
   let jobs' := AppState.jobs (appState w') in
   outcome (initApp true Fulfilled) w = Returned None /\
   requests w' = requests w ++ [IDB.GetAll] /\ idb w' = idb w /\
   jobs' ≡ₚ IDB.getAll (idb w) /\
   (valid_dates (idb w) -> StronglySorted due_le jobs') /\
   AppState.view (appState w') = "dashboard" /\
   AppState.filter (appState w') = "" /\
   Dom.recent_list (dom w') = recent jobs' /\
   Dom.summary (dom w') = summary_of jobs') /\
  (let w' := after (initApp true Rejected) w in
   outcome (initApp true Rejected) w = Returned (Some alertText) /\
   requests w' = requests w ++ [IDB.GetAll] /\
   appState w' = appState w /\ idb w' = idb w /\ dom w' = dom w) /\
  (forall reload,
     outcome (initApp false reload) w = Returned (Some alertText) /\
     after (initApp false reload) w = w).
Proof.
  intros Hinit. destruct w as [a s d r]. cbn in Hinit. subst a.
  split; [|split; [repeat split | intros reload; split; reflexivity]].
  assert (Ef : filteredJobs (AppState.set_jobs (JS.sort byDueDate s)
                               initialAppState) = JS.sort byDueDate s).
  { unfold filteredJobs. cbn. apply filter_all, passes_empty. }
  intros w' jobs'. subst jobs' w'. unfold outcome, after, initApp.
  change (loadJobsReplied Fulfilled) with loadJobs.
  rewrite bind_run, loadJobs_run. cbv beta iota.
  rewrite bind_run, renderCurrentView_dashboard by reflexivity. cbv beta iota.
  rewrite updateStats_run, Ef. cbn [fst snd appState idb dom requests].
  split; [reflexivity|]. split; [reflexivity|]. split; [reflexivity|].
  split; [apply JSFacts.sort_perm|].
  split; [intros Hv; exact (JSFacts.sort_sorted dueTime s Hv)|].
  destruct d. repeat split.
Qed.

End Order.

(** ** Requests the store rejects *)

Section Rejections.
Context {host : Host}.

Lemma handleSaveJobReplied_reload_rejected uuid now a s d r :
  handleSaveJobReplied Fulfilled Rejected uuid now (world a s d r) =
    (Thrown RequestError,
     world a (IDB.put (job_of_form (Dom.job_form d) uuid now) s) d
           (r ++ [IDB.Put (job_of_form (Dom.job_form d) uuid now);
                  IDB.GetAll])).
Proof.
  change [IDB.Put (job_of_form (Dom.job_form d) uuid now); IDB.GetAll]
    with ([IDB.Put (job_of_form (Dom.job_form d) uuid now)] ++ [IDB.GetAll]).
  rewrite app_assoc. reflexivity.
Qed.

Lemma onDeleteClickReplied_reload_rejected job a s d r :
  onDeleteClickReplied Fulfilled Rejected job true (world a s d r) =
    (Thrown RequestError,
     world a (IDB.delete (Job.id job) s) d
           (r ++ [IDB.Delete (Job.id job); IDB.GetAll])).
Proof.
  change [IDB.Delete (Job.id job); IDB.GetAll]
    with ([IDB.Delete (Job.id job)] ++ [IDB.GetAll]).
  rewrite app_assoc. reflexivity.
Qed.

(** X16.  A request the store rejects stops the listener where it is.
    A drop that changes a status and whose [put] is rejected throws after
    the assignment: memory holds the new status at the job's index, the
    store is as it was and has been sent the [put], and the columns, the
    counts and the summary are as they were; when memory held the records
    of a well-keyed store before, it does not any more.  A save or a
    confirmed delete whose write is fulfilled and whose reload is
    rejected throws with the store written and memory as it was (the
    modal is as it was).  A save or a confirmed delete whose write is
    rejected throws with memory and store as they were. *)
Theorem rejected_request_stops_the_listener :
  (forall w jobId newStatus i job,
     AppState.jobs (appState w) !! i = Some job ->
     Job.id job = jobId ->
     (forall k j, k < i -> AppState.jobs (appState w) !! k = Some j ->
                  Job.id j <> jobId) ->
     Job.status job <> newStatus ->
     let job' := Job.set_status newStatus job in
     let w' := after (onDropReplied Rejected jobId newStatus) w in
     outcome (onDropReplied Rejected jobId newStatus) w = Thrown RequestError /\
     AppState.jobs (appState w') = <[i := job']> (AppState.jobs (appState w)) /\
     idb w' = idb w /\
     requests w' = requests w ++ [IDB.Put job'] /\
     Dom.columns (dom w') = Dom.columns (dom w) /\
     Dom.counts (dom w') = Dom.counts (dom w) /\
     Dom.summary (dom w') = Dom.summary (dom w) /\
     (well_keyed (idb w) ->
      AppState.jobs (appState w) ≡ₚ IDB.getAll (idb w) ->
      job' ∈ AppState.jobs (appState w') /\
      ~ job' ∈ IDB.getAll (idb w') /\
      ~ AppState.jobs (appState w') ≡ₚ IDB.getAll (idb w'))) /\
  (forall w uuid now,
     let job := job_of_form (Dom.job_form (dom w)) uuid now in
     let w' := after (handleSaveJobReplied Fulfilled Rejected uuid now) w in
     outcome (handleSaveJobReplied Fulfilled Rejected uuid now) w =
       Thrown RequestError /\
     appState w' = appState w /\
     idb w' = IDB.put job (idb w) /\
     requests w' = requests w ++ [IDB.Put job; IDB.GetAll] /\
     Dom.modal_open (dom w') = Dom.modal_open (dom w)) /\
  (forall w job,
     let w' := after (onDeleteClickReplied Fulfilled Rejected job true) w in
     outcome (onDeleteClickReplied Fulfilled Rejected job true) w =
       Thrown RequestError /\
     appState w' = appState w /\
     idb w' = IDB.delete (Job.id job) (idb w) /\
     requests w' = requests w ++ [IDB.Delete (Job.id job); IDB.GetAll]) /\
  (forall w reload uuid now job,
     outcome (handleSaveJobReplied Rejected reload uuid now) w =
       Thrown RequestError /\
     appState (after (handleSaveJobReplied Rejected reload uuid now) w) =
       appState w /\
     idb (after (handleSaveJobReplied Rejected reload uuid now) w) = idb w /\
     outcome (onDeleteClickReplied Rejected reload job true) w =
       Thrown RequestError /\
     appState (after (onDeleteClickReplied Rejected reload job true) w) =
       appState w /\
     idb (after (onDeleteClickReplied Rejected reload job true) w) = idb w).
Proof.
  split; [|split; [|split]].
  - intros w jobId newStatus i job Hi Hid Hfirst Hne job' w'. subst w' job'.
    assert (Hat : first_at (has_id jobId) (AppState.jobs (appState w)) i job)
      by now apply first_at_id.
    destruct (onDropReplied_rejected_apart jobId newStatus i job w Hat Hne)
      as (Ho & Hj & Hs & Hr & Hd & Hapart).
    rewrite Hd. repeat (split; [assumption || reflexivity|]). exact Hapart.
  - intros [a s d r] uuid now job w'. subst w' job. unfold outcome, after.
    rewrite handleSaveJobReplied_reload_rejected. repeat split.
  - intros [a s d r] job w'. subst w'. unfold outcome, after.
    rewrite onDeleteClickReplied_reload_rejected. repeat split.
  - intros w reload uuid now job.
    destruct (handleSaveJobReplied_rejected reload uuid now w) as (H1 & H2 & H3).
    destruct (onDeleteClickReplied_rejected reload job w) as (H4 & H5 & H6).
    repeat split; assumption.
Qed.
End Rejections.

(** ** The further properties at sample data *)




Lemma tags_field_round_trip_witness :
  Forall clean_tag ["front end"; "urgent"] /\
  join_comma_space ["front end"; "urgent"] = "front end, urgent" /\
  parseTags "front end, urgent" = ["front end"; "urgent"].
Proof.
  assert (H : Forall clean_tag ["front end"; "urgent"]).
  { repeat constructor; try discriminate; simpl; intuition discriminate. }
  split; [exact H|]. split; [reflexivity|].
  exact (proj1 (tags_field_round_trip ["front end"; "urgent"]) H).
Defined.

Lemma edit_unchanged_keeps_record_witness :
  let job := job_of_form Sample.edit_form "u0" "2024-05-01T09:00:00.000Z" in
  let w := world (AppState.mk [] "list" "" true) [job]
                 (Dom.set_job_form (form_of_job job) Sample.blank_dom) [] in
  JS.truthy "u0" = true /\
  Dom.job_form (dom w) = form_of_job job /\
  idb (after (handleSaveJob (host := Sample.host)
                "u1" "2024-05-02T10:00:00.000Z") w) =
    [set_updatedAt "2024-05-02T10:00:00.000Z" job].
Proof.
  intros job w.
  assert (H1 : JS.truthy "u0" = true) by reflexivity.
  assert (H2 : Dom.job_form (dom w) = form_of_job job) by reflexivity.
  split; [exact H1|]. split; [exact H2|].
  destruct (edit_unchanged_keeps_record (host := Sample.host)
              Sample.edit_form "u0" "2024-05-01T09:00:00.000Z"
              "u1" "2024-05-02T10:00:00.000Z" w H1 H2) as (_ & Hs & _).
  rewrite Hs. reflexivity.
Defined.

Lemma save_upserts_witness :
  let w := Sample.board_editing in
  let w' := after (handleSaveJob (host := Sample.host)
                     "u1" "2024-05-02T10:00:00.000Z") w in
  well_keyed (idb w) /\
  Dom.job_id (Dom.job_form (dom w)) <> "" /\
  length (idb w') = length (idb w) /\
  Dom.modal_open (dom w') = false.
Proof.
  intros w w'.
  assert (Hk : well_keyed (idb w)) by (simpl; repeat constructor).
  assert (Hid : Dom.job_id (Dom.job_form (dom w)) <> "") by (simpl; discriminate).
  destruct (save_upserts (host := Sample.host)
              "u1" "2024-05-02T10:00:00.000Z" w)
    as (_ & _ & Hstore & Hclose & _).
  destruct (Hstore Hk) as (_ & _ & _ & Hlen).
  split; [exact Hk|]. split; [exact Hid|]. split.
  - apply Hlen. exists Sample.draft. split; [|reflexivity].
    rewrite list_elem_of_In. simpl. tauto.
  - apply Hclose. reflexivity.
Defined.

Lemma addJob_then_getAll_witness :
  let w := Sample.loaded "list" in
  well_keyed (idb w) /\
  outcome (db.addJob Sample.odd ;; db.getAllJobs) w =
    Returned [Sample.draft; Sample.early; Sample.odd] /\
  idb (after (db.addJob Sample.odd ;; db.deleteJob "c") w) =
    [Sample.draft; Sample.early].
Proof.
  intros w.
  assert (Hk : well_keyed (idb w)) by (simpl; repeat constructor; reflexivity).
  destruct (addJob_then_getAll Sample.odd w Hk) as ((Hget & _) & _ & Hdel & _).
  split; [exact Hk|]. split; [exact Hget|].
  change "c" with (Job.id Sample.odd). rewrite Hdel. reflexivity.
Defined.

Lemma delete_takes_job_out_of_memory_witness :
  let w := Sample.loaded "list" in
  in_sync (host := Sample.host) w /\
  Forall (fun r => is_Some (Sample.parse_date_only (Job.dueDate r))) (idb w) /\
  AppState.jobs (appState (after (onDeleteClick (host := Sample.host)
                                    Sample.middle true) w)) =
    [Sample.early; Sample.draft].
Proof.
  intros w.
  assert (Hs : in_sync (host := Sample.host) w) by reflexivity.
  assert (Hv : Forall (fun r => is_Some (Sample.parse_date_only (Job.dueDate r)))
                 (idb w))
    by (simpl; repeat constructor; vm_compute; eauto).
  split; [exact Hs|]. split; [exact Hv|].
  rewrite (delete_takes_job_out_of_memory (host := Sample.host)
             Sample.middle w Hs Hv).
  reflexivity.
Defined.


Lemma start_loads_and_shows_dashboard_witness :
  let w := Sample.start "dashboard" Sample.store in
  appState w = initialAppState /\
  outcome (initApp (host := Sample.host) true Fulfilled) w = Returned None /\
  Dom.recent_list (dom (after (initApp (host := Sample.host) true Fulfilled) w)) =
    Dom.Items [Sample.early; Sample.middle; Sample.draft] /\
  outcome (initApp (host := Sample.host) true Rejected) w =
    Returned (Some alertText) /\
  outcome (initApp (host := Sample.host) false Fulfilled) w =
    Returned (Some alertText).
Proof.
  intros w.
  assert (H : appState w = initialAppState) by reflexivity.
  destruct (start_loads_and_shows_dashboard (host := Sample.host) w H)
    as ((Ho & _ & _ & _ & _ & _ & _ & Hr & _) & (Hj & _) & Hf).
  split; [exact H|]. split; [exact Ho|]. split; [|split].
  - rewrite Hr. reflexivity.
  - exact Hj.
  - exact (proj1 (Hf Fulfilled)).
Defined.

Lemma typing_on_narrows_the_result_witness :
  let w := Sample.loaded "list" in
  occurs_in (JS.toLowerCase "Dra") (JS.toLowerCase "DRAFT") /\
  filteredJobs (appState (after (onSearchInput "DRAFT") w)) = [Sample.draft] /\
  filteredJobs (appState (after (onSearchInput "DRAFT") w)) `sublist_of`
  filteredJobs (appState (after (onSearchInput "Dra") w)).
Proof.
  intros w.
  assert (H : occurs_in (JS.toLowerCase "Dra") (JS.toLowerCase "DRAFT"))
    by (exists "", "ft"; reflexivity).
  split; [exact H|]. split; [reflexivity|].
  exact (typing_on_narrows_the_result "Dra" "DRAFT" w H).
Defined.

Lemma reload_keeps_ties_in_key_order_witness :
  let w := Sample.start "dashboard" tied_store in
  let jobs' :=
    AppState.jobs (appState (after (loadJobs (host := Sample.host)) w)) in
  valid_dates (host := Sample.host) (idb w) /\
  Sample.parse_date_only "2024-03-01" = Some 1709251200000%Z /\
  List.filter (due_at Sample.host 1709251200000) jobs' =
    [Sample.job "a" "March, first" "todo" "2024-03-01" [];
     Sample.job "c" "March, second" "done" "2024-03-01" []].
Proof.
  intros w jobs'.
  assert (H : valid_dates (host := Sample.host) (idb w))
    by (repeat constructor; vm_compute; eauto).
  split; [exact H|]. split; [reflexivity|]. subst jobs'.
  rewrite (reload_keeps_ties_in_key_order (host := Sample.host)
             1709251200000 w H).
  reflexivity.
Defined.

Lemma rejected_request_stops_the_listener_witness :
  let w := Sample.loaded "kanban" in
  let w' := after (onDropReplied Rejected "a1" "done") w in
  well_keyed (idb w) /\
  AppState.jobs (appState w) !! 2 = Some Sample.draft /\
  Job.status Sample.draft <> "done" /\
  outcome (onDropReplied Rejected "a1" "done") w = Thrown RequestError /\
  AppState.jobs (appState w') =
    [Sample.early; Sample.middle; Job.set_status "done" Sample.draft] /\
  idb w' = [Sample.draft; Sample.early; Sample.middle] /\
  ~ AppState.jobs (appState w') ≡ₚ IDB.getAll (idb w').
Proof.
  intros w w'.
  assert (Hk : well_keyed (idb w))
    by (simpl; repeat constructor; reflexivity).
  assert (H1 : AppState.jobs (appState w) !! 2 = Some Sample.draft)
    by reflexivity.
  assert (H2 : Job.id Sample.draft = "a1") by reflexivity.
  assert (H3 : forall k j, k < 2 -> AppState.jobs (appState w) !! k = Some j ->
                           Job.id j <> "a1").
  { intros [|[|k]] j Hk' Hj; simpl in Hj; try lia;
      injection Hj as <-; simpl; discriminate. }
  assert (H4 : Job.status Sample.draft <> "done") by (simpl; discriminate).
  assert (Hp : AppState.jobs (appState w) ≡ₚ IDB.getAll (idb w))
    by (change (JS.sort (byDueDate (host := Sample.host)) Sample.store
                  ≡ₚ Sample.store); apply JSFacts.sort_perm).
  destruct (rejected_request_stops_the_listener (host := Sample.host))
    as (Hdrop & _).
  destruct (Hdrop w "a1" "done" 2 Sample.draft H1 H2 H3 H4)
    as (Ho & Hj & Hi & _ & _ & _ & _ & Hapart).
  split; [exact Hk|]. split; [exact H1|]. split; [exact H4|].
  split; [exact Ho|]. split; [exact Hj|]. split; [exact Hi|].
  exact (proj2 (proj2 (Hapart Hk Hp))).
Defined.
